(** * Fuzzy respiratory-diagnosis expert system: the inference engine

    A shallow embedding of [fuzzy_expert_system.py].  Python floats are
    IEEE 754 binary64 numbers and are modelled by Rocq's primitive floats,
    with their comparisons [<?], [<=?], [=?] (Python's [<], [<=], [==]) and
    their rounded subtraction.  The dict of symptom values is only read
    through [.get] and is a [gmap]; the dict built by [infer_diseases]
    keeps its keys in insertion order and is an association list. *)

From Stdlib Require Import ZArith Lia Floats.
From stdpp Require Import gmap strings list.

Set Warnings "-inexact-float".
Open Scope float_scope.

(** ** The engine, as in the source *)

Module Fuzzy.

(** A condition is a Python tuple [(symptom_name, desired_presence)]. *)
Definition condition : Type := string * bool.

(** A rule is a Python dict with the keys ["disease"] and ["conditions"]. *)
Record rule : Type := Rule {
  disease : string;
  conditions : list condition
}.

(** [min(values)] on a non-empty list: the running minimum starts at the
    first item and is replaced by a later item only when that item is
    strictly smaller ([item < current]). *)
Definition py_min (x : float) (xs : list float) : float :=
  fold_left (fun cur it => if it <? cur then it else cur) xs x.

(** [min(values)] on any list; [None] stands for the [ValueError] that
    Python raises on an empty sequence. *)
Definition py_min_seq (values : list float) : option float :=
  match values with
  | [] => None
  | x :: xs => Some (py_min x xs)
  end.

(** [max(a, b)]: [b] replaces [a] only when [b > a]. *)
Definition py_max2 (a b : float) : float :=
  if a <? b then b else a.

(** The value appended to [values] for one condition:
    [val = symptom_values.get(symptom, 0.0)], then [val] or [1.0 - val]. *)
Definition condition_value (symptom_values : gmap string float)
    (c : condition) : float :=
  let val := default 0 (symptom_values !! c.1) in
  if c.2 then val else 1 - val.

(** [evaluate_rule(rule, symptom_values)] *)
Definition evaluate_rule (r : rule) (symptom_values : gmap string float)
    : float :=
  match condition_value symptom_values <$> conditions r with
  | [] => 0
  | x :: xs => py_min x xs
  end.

(** The same function with the places where a Python exception could be
    raised left visible: every step is in the [option] monad, [None] being
    an exception.  [dict.get] with a default and float subtraction always
    return; [min] is reached only behind the truth test of [values]. *)
Definition evaluate_rule_exc (r : rule) (symptom_values : gmap string float)
    : option float :=
  values ← mapM (fun c : condition =>
                   val ← Some (default 0 (symptom_values !! c.1));
                   if c.2 then Some val else Some (1 - val))
                (conditions r);
  if bool_decide (values = []) then Some 0 else py_min_seq values.

(** The mapping built by [infer_diseases]: keys in insertion order. *)
Definition scores : Type := list (string * float).

(** [disease_scores[d]], [None] when [d not in disease_scores]. *)
Fixpoint get (d : string) (m : scores) : option float :=
  match m with
  | [] => None
  | (k, x) :: m' => if String.eqb k d then Some x else get d m'
  end.

(** One iteration of the loop of [infer_diseases]: a new key is appended
    after the existing ones, an existing key keeps its position. *)
Fixpoint record_score (d : string) (score : float) (m : scores) : scores :=
  match m with
  | [] => [(d, score)]
  | (k, x) :: m' =>
      if String.eqb k d then (k, py_max2 x score) :: m'
      else (k, x) :: record_score d score m'
  end.

(** The loop of [infer_diseases], from a given [disease_scores]. *)
Definition infer_from (symptom_values : gmap string float)
    (rules : list rule) (acc : scores) : scores :=
  fold_left
    (fun disease_scores r =>
       record_score (disease r) (evaluate_rule r symptom_values)
         disease_scores)
    rules acc.

(** [infer_diseases(symptom_values, rules)] *)
Definition infer_diseases (symptom_values : gmap string float)
    (rules : list rule) : scores :=
  infer_from symptom_values rules [].

(** [max(items, key=lambda x: x[1])] on a non-empty list of items: a later
    item replaces the current best only when its key is strictly greater. *)
Definition py_max_by_score (x : string * float) (xs : list (string * float))
    : string * float :=
  fold_left (fun best it => if best.2 <? it.2 then it else best) xs x.

(** [defuzzify_diseases(disease_scores)] *)
Definition defuzzify_diseases (disease_scores : scores)
    : option string * float :=
  match disease_scores with
  | [] => (None, 0)
  | x :: xs =>
      let best_disease := py_max_by_score x xs in
      (Some best_disease.1, best_disease.2)
  end.

(** ** The sample data of the script *)

Definition symptoms : gmap string float :=
  list_to_map
    [ ("fever"%string, 0.8); ("dry_cough"%string, 0.4);
      ("wet_cough"%string, 0.2); ("sore_throat"%string, 0.7);
      ("nasal_congestion"%string, 0.6); ("muscle_pain"%string, 0.9);
      ("sneezing"%string, 0.1) ].

Definition rules : list rule :=
  [ Rule "flu"
      [ ("fever"%string, true); ("muscle_pain"%string, true);
        ("dry_cough"%string, true) ];
    Rule "cold"
      [ ("sneezing"%string, true); ("nasal_congestion"%string, true);
        ("wet_cough"%string, true) ];
    Rule "pharyngitis"
      [ ("sore_throat"%string, true); ("fever"%string, true) ];
    Rule "cold"
      [ ("sore_throat"%string, true); ("fever"%string, false);
        ("sneezing"%string, true) ];
    Rule "cold"
      [ ("dry_cough"%string, true); ("nasal_congestion"%string, true);
        ("muscle_pain"%string, false); ("fever"%string, false) ] ].

(** ** The script that runs the engine *)

(** What the script concludes, without the text it prints: the first
    message carries the two values that its f-string formats. *)
Inductive message : Type :=
  | Most_likely_disease (disease : string) (score : float)
  | No_known_disease.

(** The test [if disease and score > 0] and its two branches: [None] and
    the empty string are false in Python, and a label that is false sends
    the script to the [else] branch whatever the score. *)
Definition conclusion (disease : option string) (score : float) : message :=
  match disease with
  | None => No_known_disease
  | Some d =>
      if negb (String.eqb d "") && (0 <? score)
      then Most_likely_disease d score
      else No_known_disease
  end.

(** The statements of the script, for any symptom values and rule base:
    [fuzzy_results = infer_diseases(...)],
    [disease, score = defuzzify_diseases(fuzzy_results)], then the test.
    The [print] of the whole mapping does not change the conclusion and
    is left out. *)
Definition run (symptom_values : gmap string float) (rules : list rule)
    : message :=
  let fuzzy_results := infer_diseases symptom_values rules in
  let '(disease, score) := defuzzify_diseases fuzzy_results in
  conclusion disease score.

End Fuzzy.

Import Fuzzy.

(** ** Vocabulary of the properties *)

(** A float that is a number, as the symptom values of the data model are. *)
Definition number (x : float) : Prop := is_nan x = false.

#[global] Instance number_dec (x : float) : Decision (number x).
Proof. unfold number. apply _. Defined.

(** A symptom mapping all of whose values are numbers. *)
Definition number_values (v : gmap string float) : Prop :=
  forall s x, v !! s = Some x -> number x.

(** [x] lies in the closed interval [[0, 1]]. *)
Definition unit_interval (x : float) : Prop :=
  (0 <=? x) = true /\ (x <=? 1) = true.

#[global] Instance unit_interval_dec (x : float) : Decision (unit_interval x).
Proof. unfold unit_interval. apply _. Defined.

(** A symptom mapping all of whose values lie in [[0, 1]]. *)
Definition unit_values (v : gmap string float) : Prop :=
  forall s x, v !! s = Some x -> unit_interval x.

(** [m] is a minimum of [l]: an item of [l] below every item of [l]. *)
Definition is_minimum (m : float) (l : list float) : Prop :=
  m ∈ l /\ forall y, y ∈ l -> (m <=? y) = true.

(** [m] is a maximum of [l]: an item of [l] above every item of [l]. *)
Definition is_maximum (m : float) (l : list float) : Prop :=
  m ∈ l /\ forall y, y ∈ l -> (y <=? m) = true.

(** The scores that the rules of diagnosis [d] obtain, in rule-base order. *)
Definition label_scores (v : gmap string float) (R : list rule) (d : string)
    : list float :=
  (fun r => evaluate_rule r v) <$> filter (fun r => disease r = d) R.

(** A [spec_float] that is a non-negative number not above one; [1.0] is
    [2^52 * 2^-52], and canonical floats below it have a smaller exponent. *)
Definition SFunit (r : spec_float) : Prop :=
  match r with
  | S754_zero false => True
  | S754_finite false m e =>
      (e <= -53)%Z \/ (e = (-52)%Z /\ Zpos m = (2 ^ 52)%Z)
  | _ => False
  end.

(** A [spec_float] that is a non-negative number not above [2^-k]:
    [SFunit] is the case [k = 0]. *)
Definition SFbelow (k : Z) (r : spec_float) : Prop :=
  match r with
  | S754_zero false => True
  | S754_finite false m e =>
      (e <= -53 - k)%Z \/ (e = (-52 - k)%Z /\ Zpos m = (2 ^ 52)%Z)
  | _ => False
  end.

(** ** Facts about binary64 numbers

    The primitive operations are specified by [Prim2SF] and the functions
    of [SpecFloat]; the facts below are proved on that specification. *)

Module Binary64.

Local Open Scope Z_scope.

(** *** The order of [SFcompare] *)

Lemma SFcompare_number a b :
  a <> S754_nan -> b <> S754_nan -> exists c, SFcompare a b = Some c.
Proof.
  destruct a as [[]|[]| |[] ? ?], b as [[]|[]| |[] ? ?]; simpl;
    intros; try congruence; eauto.
Qed.

Lemma SFcompare_swap a b :
  SFcompare b a = option_map CompOpp (SFcompare a b).
Proof.
  destruct a as [[]|[]| |[] m1 e1], b as [[]|[]| |[] m2 e2]; simpl;
    try reflexivity;
    rewrite (Z.compare_antisym e1 e2); destruct (e1 ?= e2); simpl;
    try reflexivity;
    fold (Pos.compare m1 m2); fold (Pos.compare m2 m1);
    rewrite (Pos.compare_antisym m1 m2);
    destruct (m1 ?= m2)%positive; reflexivity.
Qed.

Lemma SFleb_trans a b c :
  SFleb a b = true -> SFleb b c = true -> SFleb a c = true.
Proof.
  unfold SFleb.
  destruct a as [[]|[]| |[] m1 e1], b as [[]|[]| |[] m2 e2],
           c as [[]|[]| |[] m3 e3]; simpl; try congruence;
    repeat match goal with
           | |- context [Pos.compare_cont Eq ?x ?y] => fold (Pos.compare x y)
           end;
    destruct (Z.compare_spec e1 e2), (Z.compare_spec e2 e3),
             (Z.compare_spec e1 e3); simpl; try congruence; try lia;
    destruct (Pos.compare_spec m1 m2), (Pos.compare_spec m2 m3),
             (Pos.compare_spec m1 m3); simpl; try congruence; try lia.
Qed.

Lemma SFltb_negb_leb a b :
  a <> S754_nan -> b <> S754_nan -> SFltb a b = negb (SFleb b a).
Proof.
  intros Ha Hb. unfold SFltb, SFleb. rewrite (SFcompare_swap a b).
  destruct (SFcompare_number a b Ha Hb) as [[] ->]; reflexivity.
Qed.

Lemma SFltb_leb a b : SFltb a b = true -> SFleb a b = true.
Proof. unfold SFltb, SFleb. destruct (SFcompare a b) as [[]|]; easy. Qed.

Lemma SFeqb_leb a b : SFeqb a b = SFleb a b && SFleb b a.
Proof.
  unfold SFeqb, SFleb. rewrite (SFcompare_swap a b).
  destruct (SFcompare a b) as [[]|]; reflexivity.
Qed.

Lemma SFleb_refl a : a <> S754_nan -> SFleb a a = true.
Proof.
  intros Ha. unfold SFleb.
  destruct a as [[]|[]| |[] m e]; simpl; try congruence;
    rewrite Z.compare_refl, Pos.compare_cont_refl; reflexivity.
Qed.

Lemma SFleb_not_nan a b :
  SFleb a b = true -> a <> S754_nan /\ b <> S754_nan.
Proof.
  unfold SFleb.
  destruct a as [[]|[]| |[] ? ?], b as [[]|[]| |[] ? ?]; simpl;
    intros; split; congruence.
Qed.

Lemma SFleb_finite m1 e1 m2 e2 :
  SFleb (S754_finite false m1 e1) (S754_finite false m2 e2) = true <->
  e1 < e2 \/ (e1 = e2 /\ Zpos m1 <= Zpos m2).
Proof.
  unfold SFleb, SFcompare. fold (Pos.compare m1 m2).
  destruct (Z.compare_spec e1 e2) as [E|E|E];
    [destruct (Pos.compare_spec m1 m2) as [F|F|F]| |]; split; intros H;
    try discriminate; try reflexivity; lia.
Qed.

(** *** Mantissa sizes and right shifts *)

Lemma digits2_pos_bounds (m : positive) :
  2 ^ (Zpos (digits2_pos m) - 1) <= Zpos m < 2 ^ Zpos (digits2_pos m).
Proof.
  induction m as [p IH|p IH|]; simpl digits2_pos.
  - rewrite Pos2Z.inj_succ, Z.pow_succ_r by lia.
    replace (Z.succ (Zpos (digits2_pos p)) - 1)
      with (Z.succ (Zpos (digits2_pos p) - 1)) by lia.
    rewrite Z.pow_succ_r by lia. lia.
  - rewrite Pos2Z.inj_succ, Z.pow_succ_r by lia.
    replace (Z.succ (Zpos (digits2_pos p)) - 1)
      with (Z.succ (Zpos (digits2_pos p) - 1)) by lia.
    rewrite Z.pow_succ_r by lia. lia.
  - simpl. lia.
Qed.

Lemma Zdigits2_bounds m :
  0 < m -> 2 ^ (Zdigits2 m - 1) <= m < 2 ^ Zdigits2 m.
Proof.
  destruct m as [|p|p]; try lia. intros _. apply digits2_pos_bounds.
Qed.

Lemma Zdigits2_le_of_lt m k : 0 < m -> m < 2 ^ k -> Zdigits2 m <= k.
Proof.
  intros Hm Hk. destruct (Zdigits2_bounds m Hm) as [Hl _].
  destruct (Z.le_gt_cases (Zdigits2 m) k) as [|Hgt]; [easy|].
  assert (0 <= k)
    by (destruct (Z.le_gt_cases 0 k); [easy|];
        rewrite Z.pow_neg_r in Hk; lia).
  assert (2 ^ k <= 2 ^ (Zdigits2 m - 1)) by (apply Z.pow_le_mono_r; lia).
  lia.
Qed.

Lemma Zdigits2_le_of_le m k : 0 < m -> m <= 2 ^ k -> Zdigits2 m <= k + 1.
Proof.
  intros Hm Hk. apply Zdigits2_le_of_lt; [easy|].
  assert (0 <= k)
    by (destruct (Z.le_gt_cases 0 k); [easy|];
        rewrite Z.pow_neg_r in Hk; lia).
  replace (k + 1) with (Z.succ k) by lia.
  rewrite Z.pow_succ_r by easy. lia.
Qed.

Lemma shr_1_m mrs : 0 <= shr_m mrs -> shr_m (shr_1 mrs) = shr_m mrs / 2.
Proof.
  destruct mrs as [m r s]; simpl. intros Hm.
  destruct m as [|[p|p|]|p]; cbn [shr_m]; try lia; try reflexivity.
  - apply Z.div_unique with 1; lia.
  - apply Z.div_unique with 0; lia.
Qed.

Lemma iter_shr_1_m p : forall mrs, 0 <= shr_m mrs ->
  shr_m (SpecFloat.iter_pos shr_1 p mrs) = shr_m mrs / 2 ^ Zpos p.
Proof.
  induction p as [p IH|p IH|]; intros mrs Hm; simpl SpecFloat.iter_pos.
  - assert (H1 : 0 <= shr_m (shr_1 mrs))
      by (rewrite shr_1_m by easy; apply Z.div_pos; lia).
    assert (H2 : 0 <= shr_m (SpecFloat.iter_pos shr_1 p (shr_1 mrs)))
      by (rewrite IH by easy; apply Z.div_pos; lia).
    rewrite IH, IH, shr_1_m by easy.
    rewrite !Z.div_div by lia.
    f_equal. replace (Zpos p~1) with (Z.succ (2 * Zpos p)) by lia.
    rewrite Z.pow_succ_r, Z.pow_twice_r by lia. lia.
  - assert (H2 : 0 <= shr_m (SpecFloat.iter_pos shr_1 p mrs))
      by (rewrite IH by easy; apply Z.div_pos; lia).
    rewrite IH, IH by easy.
    rewrite !Z.div_div by lia.
    f_equal. replace (Zpos p~0) with (2 * Zpos p) by lia.
    rewrite Z.pow_twice_r by lia. lia.
  - rewrite shr_1_m by easy. reflexivity.
Qed.

Lemma shr_m_record_of_loc m l : shr_m (shr_record_of_loc m l) = m.
Proof. destruct l as [|[]]; reflexivity. Qed.

Lemma fexp_eq x : fexp prec emax x = Z.max (x - 53) (-1074).
Proof. reflexivity. Qed.

(** [shr_fexp] divides the mantissa by a power of two and raises the
    exponent by as much. *)
Lemma shr_fexp_spec m e l :
  0 <= m ->
  let n := Z.max 0 (fexp prec emax (Zdigits2 m + e) - e) in
  shr_m (fst (shr_fexp prec emax m e l)) = m / 2 ^ n /\
  snd (shr_fexp prec emax m e l) = e + n.
Proof.
  intros Hm n. unfold shr_fexp, shr. subst n.
  destruct (fexp prec emax (Zdigits2 m + e) - e) as [|p|p] eqn:E;
    simpl fst; simpl snd.
  - rewrite shr_m_record_of_loc. simpl. rewrite Z.div_1_r. lia.
  - rewrite iter_shr_1_m by (rewrite shr_m_record_of_loc; easy).
    rewrite shr_m_record_of_loc. rewrite Z.max_r by lia. lia.
  - rewrite shr_m_record_of_loc. rewrite Z.max_l by lia. simpl.
    rewrite Z.div_1_r. lia.
Qed.

Lemma shr_fexp_noshift m e l :
  fexp prec emax (Zdigits2 m + e) - e <= 0 ->
  shr_fexp prec emax m e l = (shr_record_of_loc m l, e).
Proof.
  intros H. unfold shr_fexp, shr.
  destruct (fexp prec emax (Zdigits2 m + e) - e); try reflexivity. lia.
Qed.

Lemma round_nearest_even_bounds m l :
  m <= round_nearest_even m l <= m + 1.
Proof. destruct l as [|[]]; simpl; try lia. destruct (Z.even m); lia. Qed.

Lemma Zpos_iter_xO m d : Zpos (Pos.iter xO m d) = Zpos m * 2 ^ Zpos d.
Proof.
  change (Pos.iter xO m d) with (shift_pos d m).
  rewrite shift_pos_correct. change (Z.pow_pos 2 d) with (2 ^ Zpos d). lia.
Qed.

(** *** Rounding *)

(** Rounding a non-negative mantissa never produces a NaN. *)
Lemma binary_round_aux_not_nan s mx ex lx :
  0 <= mx -> binary_round_aux prec emax s mx ex lx <> S754_nan.
Proof.
  intros Hm. unfold binary_round_aux.
  pose proof (shr_fexp_spec mx ex lx Hm) as [H1 _].
  destruct (shr_fexp prec emax mx ex lx) as [mrs' e']. simpl in H1.
  pose proof (round_nearest_even_bounds (shr_m mrs')
                (loc_of_shr_record mrs')) as Hr.
  assert (H0 : 0 <= shr_m mrs') by (rewrite H1; apply Z.div_pos; lia).
  pose proof (shr_fexp_spec
                (round_nearest_even (shr_m mrs') (loc_of_shr_record mrs'))
                e' loc_Exact ltac:(lia)) as [H2 _].
  destruct (shr_fexp prec emax _ e' loc_Exact) as [mrs'' e'']. simpl in H2.
  assert (0 <= shr_m mrs'') by (rewrite H2; apply Z.div_pos; lia).
  destruct (shr_m mrs''); [discriminate| |lia].
  destruct (e'' <=? emax - prec); discriminate.
Qed.

(** Rounding a positive number below one gives a number of [[0, 1]]:
    the exponent stays below [-52], or the mantissa is rounded up to the
    next power of two and the result is one. *)
Lemma binary_round_aux_unit mx ex :
  0 < mx -> mx < 2 ^ (- ex) -> ex <= -53 ->
  SFunit (binary_round_aux prec emax false mx ex loc_Exact).
Proof.
  intros Hpos Hlt Hex. unfold binary_round_aux.
  assert (Hd : Zdigits2 mx + ex <= 0)
    by (pose proof (Zdigits2_le_of_lt mx (- ex) Hpos Hlt); lia).
  assert (H1 : exists mrs' e',
             shr_fexp prec emax mx ex loc_Exact = (mrs', e') /\
             e' <= -53 /\
             0 <= round_nearest_even (shr_m mrs') (loc_of_shr_record mrs')
               <= 2 ^ (- e')).
  { destruct (Z.le_gt_cases (fexp prec emax (Zdigits2 mx + ex) - ex) 0)
      as [Hn|Hn].
    - rewrite shr_fexp_noshift by assumption. do 2 eexists.
      split; [reflexivity|]. simpl. lia.
    - pose proof (shr_fexp_spec mx ex loc_Exact ltac:(lia)) as [Hm He].
      destruct (shr_fexp prec emax mx ex loc_Exact) as [mrs' e'].
      simpl in Hm, He.
      do 2 eexists. split; [reflexivity|].
      rewrite fexp_eq in *. rewrite Z.max_r in Hm, He by lia.
      remember (Z.max (Zdigits2 mx + ex - 53) (-1074) - ex) as n eqn:Dn.
      assert (He' : e' <= -53) by lia.
      split; [exact He'|].
      pose proof (round_nearest_even_bounds (shr_m mrs')
                    (loc_of_shr_record mrs')) as Hr.
      rewrite Hm in *.
      assert (0 <= mx / 2 ^ n) by (apply Z.div_pos; lia).
      assert (mx / 2 ^ n < 2 ^ (- e')).
      { apply Z.div_lt_upper_bound; [lia|].
        rewrite <- Z.pow_add_r by lia.
        replace (n + - e') with (- ex) by lia. exact Hlt. }
      lia. }
  destruct H1 as (mrs' & e' & -> & He' & Hm1).
  remember (round_nearest_even (shr_m mrs') (loc_of_shr_record mrs'))
    as m1 eqn:Dm1.
  pose proof (shr_fexp_spec m1 e' loc_Exact ltac:(lia)) as [Hm He].
  destruct (shr_fexp prec emax m1 e' loc_Exact) as [mrs'' e''].
  simpl in Hm, He. rewrite fexp_eq in *.
  remember (Z.max 0 (Z.max (Zdigits2 m1 + e' - 53) (-1074) - e'))
    as n2 eqn:Dn2.
  destruct (shr_m mrs'') as [|m''|m''] eqn:Em; simpl; [exact I| |].
  - assert (Hm1pos : 0 < m1).
    { destruct (Z.eq_dec m1 0) as [E0|]; [|lia].
      rewrite E0, Z.div_0_l in Hm by lia. lia. }
    pose proof (Zdigits2_le_of_le m1 (- e') Hm1pos ltac:(lia)) as Hd1.
    assert (He'' : e'' <= -52) by lia.
    replace (e'' <=? emax - prec) with true
      by (symmetry; apply Z.leb_le; change (emax - prec) with 971; lia).
    simpl. destruct (Z.le_gt_cases e'' (-53)) as [|Hgt]; [left; lia|right].
    split; [lia|].
    assert (Hdig : Zdigits2 m1 = 1 - e') by lia.
    destruct (Zdigits2_bounds m1 Hm1pos) as [Hlo _].
    rewrite Hdig in Hlo. replace (1 - e' - 1) with (- e') in Hlo by lia.
    assert (Em1 : m1 = 2 ^ (- e')) by lia.
    assert (En2 : n2 = -52 - e') by lia.
    rewrite Hm, Em1, En2, <- Z.pow_sub_r by lia.
    replace (- e' - (-52 - e')) with 52 by lia. reflexivity.
  - assert (0 <= m1 / 2 ^ n2) by (apply Z.div_pos; lia). lia.
Qed.

Lemma binary_round_unit m e :
  Zpos m < 2 ^ (- e) -> e <= -53 ->
  SFunit (binary_round prec emax false m e).
Proof.
  intros Hlt He. unfold binary_round, shl_align.
  destruct (fexp prec emax (Zpos (digits2_pos m) + e) - e) as [|d|d] eqn:E;
    try (apply binary_round_aux_unit; [lia|assumption|assumption]).
  apply binary_round_aux_unit; [lia| |lia].
  rewrite Zpos_iter_xO.
  replace (- fexp prec emax (Zpos (digits2_pos m) + e))
    with (- e + Zpos d) by lia.
  rewrite Z.pow_add_r by lia.
  apply Z.mul_lt_mono_pos_r; [|exact Hlt]. apply Z.pow_pos_nonneg; lia.
Qed.

(** A canonical mantissa has at most 53 bits, and exactly 53 above the
    smallest exponent. *)
Lemma bounded_digits m e :
  bounded prec emax m e = true ->
  Zpos (digits2_pos m) <= 53 /\ -1074 <= e /\
  (-1074 < e -> Zpos (digits2_pos m) = 53).
Proof.
  unfold bounded, canonical_mantissa. rewrite fexp_eq.
  intros H. apply andb_prop in H as [H _]. apply Z.eqb_eq in H. lia.
Qed.

(** *** Subtraction from one *)

Section One.
(** The mantissa of [1.0 = one_m * 2^-52], kept abstract so that no
    proof computes on its 53 bits. *)
Variable one_m : positive.
Hypothesis one_m_eq : Zpos one_m = 2 ^ 52.

Let SF_one : spec_float := S754_finite false one_m (-52).

Lemma SFsub_one_unit m e :
  bounded prec emax m e = true ->
  SFleb (S754_finite false m e) SF_one = true ->
  SFunit (SFsub prec emax SF_one (S754_finite false m e)).
Proof using one_m_eq.
  intros Hb Hle. apply bounded_digits in Hb as (Hd & He & Hn).
  pose proof (digits2_pos_bounds m) as [Hlo Hhi].
  assert (Hm53 : Zpos m < 2 ^ 53).
  { eapply Z.lt_le_trans; [exact Hhi|]. apply Z.pow_le_mono_r; lia. }
  apply SFleb_finite in Hle.
  unfold SFsub, SF_one, cond_Zopp, shl_align.
  destruct Hle as [Hlt|[-> Hle]].
  - (* a smaller exponent: one is aligned on it, the difference is
       positive and below one *)
    rewrite Z.min_r by lia. rewrite Z.sub_diag.
    destruct (e - -52) as [|d|d] eqn:Ed; try lia.
    cbn [fst].
    assert (Hval : Zpos (Pos.iter xO one_m d) = 2 ^ (- e)).
    { rewrite Zpos_iter_xO, one_m_eq.
      rewrite <- Z.pow_add_r by lia. f_equal. lia. }
    assert (H53 : 2 ^ 53 <= 2 ^ (- e)) by (apply Z.pow_le_mono_r; lia).
    unfold binary_normalize.
    destruct (Zpos (Pos.iter xO one_m d) - Zpos m) as [|M|M] eqn:EM;
      try lia.
    apply binary_round_unit; lia.
  - (* the same exponent: the argument is one itself *)
    rewrite Hn in Hlo by lia. replace (53 - 1) with 52 in Hlo by lia.
    assert (Em : m = one_m) by lia.
    subst m. rewrite Z.min_id, Z.sub_diag. exact I.
Qed.

Lemma SFsub_one_not_nan p :
  p <> S754_nan -> SFsub prec emax SF_one p <> S754_nan.
Proof using Type.
  intros Hp. destruct p as [s|s| |s m e]; try discriminate; [congruence|].
  unfold SFsub, SF_one, binary_normalize, binary_round.
  destruct (_ - _) as [|q|q]; [discriminate| |];
    destruct (shl_align q _ _) as [mz ez];
    apply binary_round_aux_not_nan; lia.
Qed.

Lemma SFunit_leb r :
  SFunit r -> SFleb (S754_zero false) r = true /\ SFleb r SF_one = true.
Proof using one_m_eq.
  destruct r as [[]|[]| |[] m e]; simpl; try easy.
  intros H; split; [reflexivity|]. apply SFleb_finite. lia.
Qed.

Lemma SF_one_minus_unit p :
  valid_binary p = true ->
  SFleb (S754_zero false) p = true -> SFleb p SF_one = true ->
  SFunit (SFsub prec emax SF_one p).
Proof using one_m_eq.
  intros Hv H0 H1. destruct p as [s|s| |s m e]; try discriminate.
  - unfold SFsub, SF_one, SFunit. right. auto.
  - destruct s; discriminate.
  - destruct s; [discriminate|]. apply SFsub_one_unit; assumption.
Qed.
End One.

(** *** The primitive operations *)

Lemma Prim2SF_one :
  Prim2SF 1%float = S754_finite false 4503599627370496 (-52).
Proof. vm_compute. reflexivity. Qed.

Lemma Prim2SF_zero : Prim2SF 0%float = S754_zero false.
Proof. vm_compute. reflexivity. Qed.

Lemma one_mantissa : Zpos 4503599627370496 = 2 ^ 52.
Proof. vm_compute. reflexivity. Qed.

Lemma Prim2SF_nan x : Prim2SF x = S754_nan <-> is_nan x = true.
Proof.
  unfold is_nan. rewrite FloatAxioms.eqb_spec. unfold SFeqb.
  destruct (Prim2SF x) as [s|s| |s m e]; simpl.
  - split; discriminate.
  - destruct s; split; discriminate.
  - easy.
  - rewrite Z.compare_refl, Pos.compare_cont_refl.
    destruct s; split; discriminate.
Qed.

Lemma number_Prim2SF x : number x <-> Prim2SF x <> S754_nan.
Proof.
  unfold number. rewrite Prim2SF_nan. destruct (is_nan x); split; congruence.
Qed.

(** *** Order and subtraction on primitive floats *)

Lemma ltb_negb_leb (x y : float) :
  number x -> number y -> (x <? y)%float = negb (y <=? x)%float.
Proof.
  rewrite !number_Prim2SF, FloatAxioms.ltb_spec, FloatAxioms.leb_spec.
  apply SFltb_negb_leb.
Qed.

Lemma ltb_leb (x y : float) :
  (x <? y)%float = true -> (x <=? y)%float = true.
Proof.
  rewrite FloatAxioms.ltb_spec, FloatAxioms.leb_spec. apply SFltb_leb.
Qed.

Lemma leb_refl (x : float) : number x -> (x <=? x)%float = true.
Proof.
  rewrite number_Prim2SF, FloatAxioms.leb_spec. apply SFleb_refl.
Qed.

Lemma leb_trans (x y z : float) :
  (x <=? y)%float = true -> (y <=? z)%float = true ->
  (x <=? z)%float = true.
Proof. rewrite !FloatAxioms.leb_spec. apply SFleb_trans. Qed.

Lemma leb_number (x y : float) :
  (x <=? y)%float = true -> number x /\ number y.
Proof.
  rewrite !number_Prim2SF, FloatAxioms.leb_spec. apply SFleb_not_nan.
Qed.

Lemma eqb_leb (x y : float) :
  (x =? y)%float = ((x <=? y)%float && (y <=? x)%float).
Proof.
  rewrite FloatAxioms.eqb_spec, !FloatAxioms.leb_spec. apply SFeqb_leb.
Qed.

Lemma ltb_not_eqb (x y : float) :
  (x <? y)%float = true -> (x =? y)%float = false.
Proof.
  rewrite FloatAxioms.ltb_spec, FloatAxioms.eqb_spec. unfold SFltb, SFeqb.
  destruct (SFcompare _ _) as [[]|]; congruence.
Qed.

Lemma unit_interval_number (x : float) : unit_interval x -> number x.
Proof. intros [H _]. apply leb_number in H. tauto. Qed.

Lemma zero_unit : unit_interval 0%float.
Proof. split; vm_compute; reflexivity. Qed.

(** [1.0 - x] stays in [[0, 1]] when [x] is there, rounding included. *)
Lemma one_minus_unit (x : float) :
  unit_interval x -> unit_interval (1 - x)%float.
Proof.
  unfold unit_interval.
  rewrite !FloatAxioms.leb_spec, FloatAxioms.sub_spec,
    Prim2SF_one, Prim2SF_zero.
  intros [H0 H1].
  apply (SFunit_leb _ one_mantissa), (SF_one_minus_unit _ one_mantissa);
    auto using Prim2SF_valid.
Qed.

(** [1.0 - x] is a number when [x] is. *)
Lemma one_minus_number (x : float) : number x -> number (1 - x)%float.
Proof.
  rewrite !number_Prim2SF, FloatAxioms.sub_spec, Prim2SF_one.
  apply SFsub_one_not_nan.
Qed.

Lemma ltb_leb_trans (x y z : float) :
  number x -> (x <? y)%float = true -> (y <=? z)%float = true ->
  (x <? z)%float = true.
Proof.
  intros Hx Hxy Hyz.
  destruct (leb_number _ _ Hyz) as [Hy Hz].
  rewrite ltb_negb_leb in * by assumption.
  destruct (z <=? x)%float eqn:Hzx; [|reflexivity].
  rewrite (leb_trans y z x) in Hxy by assumption. discriminate.
Qed.

Lemma leb_ltb_trans (x y z : float) :
  number z -> (x <=? y)%float = true -> (y <? z)%float = true ->
  (x <? z)%float = true.
Proof.
  intros Hz Hxy Hyz.
  destruct (leb_number _ _ Hxy) as [Hx Hy].
  rewrite ltb_negb_leb in * by assumption.
  destruct (z <=? x)%float eqn:Hzx; [|reflexivity].
  rewrite (leb_trans z x y) in Hyz by assumption. discriminate.
Qed.

End Binary64.

Import Binary64.

(** ** Python's [min] and [max] compute a minimum and a maximum *)

Create HintDb flt.

Section MinMax.

Local Hint Resolve leb_refl leb_trans ltb_leb : flt.

(** One comparison of [min]: the new running minimum is below both the
    old one and the item. *)
Lemma min_step (cur it : float) :
  number cur -> number it ->
  let cur' := if it <? cur then it else cur in
  number cur' /\ (cur' <=? cur) = true /\ (cur' <=? it) = true.
Proof.
  intros Hc Hi. cbv zeta.
  destruct (it <? cur) eqn:E.
  - auto with flt.
  - rewrite ltb_negb_leb in E by assumption.
    apply negb_false_iff in E. auto with flt.
Qed.

Lemma py_min_elem (xs : list float) : forall x, py_min x xs ∈ x :: xs.
Proof.
  induction xs as [|a xs IH]; intros x.
  - left.
  - change (py_min x (a :: xs))
      with (py_min (if a <? x then a else x) xs).
    specialize (IH (if a <? x then a else x)).
    destruct (a <? x).
    + by right.
    + apply elem_of_cons in IH as [->|IH]; [left|by do 2 right].
Qed.

Lemma py_min_lower (xs : list float) : forall x,
  Forall number (x :: xs) ->
  forall y, y ∈ x :: xs -> (py_min x xs <=? y) = true.
Proof.
  induction xs as [|a xs IH]; intros x Hn y Hy.
  - apply list_elem_of_singleton in Hy as ->. apply leb_refl.
    by inversion Hn.
  - change (py_min x (a :: xs))
      with (py_min (if a <? x then a else x) xs).
    inversion Hn as [|? ? Hx Hn']; subst.
    inversion Hn' as [|? ? Ha Hxs]; subst.
    destruct (min_step x a Hx Ha) as (Hc & Hcx & Hca).
    set (cur := if a <? x then a else x) in *.
    assert (Hcur : Forall number (cur :: xs)) by (constructor; assumption).
    assert (Hm : (py_min cur xs <=? cur) = true)
      by (apply (IH cur Hcur); left).
    rewrite !elem_of_cons in Hy. destruct Hy as [->|[->|Hy]].
    + eauto with flt.
    + eauto with flt.
    + apply (IH cur Hcur). by right.
Qed.

Lemma py_min_is_minimum (x : float) (xs : list float) :
  Forall number (x :: xs) -> is_minimum (py_min x xs) (x :: xs).
Proof. split; [apply py_min_elem|by apply py_min_lower]. Qed.

(** One call of [max(a, b)]. *)
Lemma py_max2_cases (a b : float) : py_max2 a b = a \/ py_max2 a b = b.
Proof. unfold py_max2. destruct (a <? b); auto. Qed.

Lemma py_max2_upper (a b : float) :
  number a -> number b ->
  (a <=? py_max2 a b) = true /\ (b <=? py_max2 a b) = true.
Proof.
  intros Ha Hb. unfold py_max2. destruct (a <? b) eqn:E.
  - auto with flt.
  - rewrite ltb_negb_leb in E by assumption.
    apply negb_false_iff in E. auto with flt.
Qed.

Lemma py_max2_number (a b : float) :
  number a -> number b -> number (py_max2 a b).
Proof. intros. destruct (py_max2_cases a b) as [->| ->]; assumption. Qed.

(** Folding [max(stored, new)] over the later scores of a diagnosis. *)
Lemma fold_max_is_maximum (ss : list float) : forall x,
  Forall number (x :: ss) -> is_maximum (fold_left py_max2 ss x) (x :: ss).
Proof.
  induction ss as [|s ss IH]; intros x Hn.
  - split; [left|]. intros y Hy.
    apply list_elem_of_singleton in Hy as ->. apply leb_refl.
    by inversion Hn.
  - inversion Hn as [|? ? Hx Hn']; subst.
    inversion Hn' as [|? ? Hs Hss]; subst.
    destruct (py_max2_upper x s Hx Hs) as [Hxm Hsm].
    destruct (IH (py_max2 x s)) as [Hin Hup].
    { constructor; [by apply py_max2_number|assumption]. }
    simpl. split.
    + apply elem_of_cons in Hin as [Heq|Hin]; [|by do 2 right].
      rewrite Heq. destruct (py_max2_cases x s) as [->| ->];
        [left|right; left].
    + intros y Hy. rewrite !elem_of_cons in Hy.
      assert (Hm : (py_max2 x s <=? fold_left py_max2 ss (py_max2 x s))
                   = true) by (apply Hup; left).
      destruct Hy as [->|[->|Hy]]; [eauto with flt..|].
      apply Hup. by right.
Qed.

End MinMax.

(** ** Rule evaluation *)

Lemma zero_number : number 0.
Proof. reflexivity. Qed.

Lemma condition_value_number (v : gmap string float) (c : condition) :
  number_values v -> number (condition_value v c).
Proof.
  intros Hv. unfold condition_value.
  assert (Hval : number (default 0 (v !! c.1))).
  { destruct (v !! c.1) as [x|] eqn:E; [exact (Hv _ _ E)|exact zero_number]. }
  destruct c.2; [assumption|by apply one_minus_number].
Qed.

Lemma condition_value_unit (v : gmap string float) (c : condition) :
  unit_values v -> unit_interval (condition_value v c).
Proof.
  intros Hv. unfold condition_value.
  assert (Hval : unit_interval (default 0 (v !! c.1))).
  { destruct (v !! c.1) as [x|] eqn:E; [exact (Hv _ _ E)|exact zero_unit]. }
  destruct c.2; [assumption|by apply one_minus_unit].
Qed.

Lemma values_number (v : gmap string float) (cs : list condition) :
  number_values v -> Forall number (condition_value v <$> cs).
Proof.
  intros Hv. apply Forall_fmap, Forall_forall. intros c _.
  by apply condition_value_number.
Qed.

(** A rule with conditions scores one of the values of its conditions. *)
Lemma evaluate_rule_elem (r : rule) (v : gmap string float) :
  conditions r <> [] ->
  evaluate_rule r v ∈ condition_value v <$> conditions r.
Proof.
  intros Hne. unfold evaluate_rule.
  destruct (condition_value v <$> conditions r) as [|x xs] eqn:E.
  - apply fmap_nil_inv in E. contradiction.
  - apply py_min_elem.
Qed.

Lemma evaluate_rule_empty (r : rule) (v : gmap string float) :
  conditions r = [] -> evaluate_rule r v = 0.
Proof. unfold evaluate_rule. by intros ->. Qed.

Lemma evaluate_rule_minimum (r : rule) (v : gmap string float) :
  number_values v -> conditions r <> [] ->
  is_minimum (evaluate_rule r v) (condition_value v <$> conditions r).
Proof.
  intros Hv Hne. pose proof (values_number v (conditions r) Hv) as Hn.
  unfold evaluate_rule.
  destruct (condition_value v <$> conditions r) as [|x xs] eqn:E.
  - apply fmap_nil_inv in E. contradiction.
  - by apply py_min_is_minimum.
Qed.

Lemma evaluate_rule_number (r : rule) (v : gmap string float) :
  number_values v -> number (evaluate_rule r v).
Proof.
  intros Hv. destruct (conditions r) as [|c cs] eqn:E.
  - rewrite evaluate_rule_empty by assumption. exact zero_number.
  - pose proof (evaluate_rule_elem r v) as Hin.
    rewrite E in Hin. specialize (Hin ltac:(discriminate)).
    apply list_elem_of_fmap in Hin as (c' & -> & _).
    by apply condition_value_number.
Qed.

Lemma evaluate_rule_unit (r : rule) (v : gmap string float) :
  unit_values v -> unit_interval (evaluate_rule r v).
Proof.
  intros Hv. destruct (conditions r) as [|c cs] eqn:E.
  - rewrite evaluate_rule_empty by assumption. exact zero_unit.
  - pose proof (evaluate_rule_elem r v) as Hin.
    rewrite E in Hin. specialize (Hin ltac:(discriminate)).
    apply list_elem_of_fmap in Hin as (c' & -> & _).
    by apply condition_value_unit.
Qed.

(** The exception-aware evaluation never takes an exceptional branch. *)
Lemma mapM_condition_values (v : gmap string float) (cs : list condition) :
  mapM (fun c : condition =>
          val ← Some (default 0 (v !! c.1));
          if c.2 then Some val else Some (1 - val)) cs
  = Some (condition_value v <$> cs).
Proof.
  induction cs as [|c cs IH]; [reflexivity|].
  cbn [mapM]. rewrite IH. unfold condition_value. simpl.
  by destruct c.2.
Qed.

(** ** The mapping of diagnosis scores *)

Lemma get_None (d : string) (m : scores) : get d m = None <-> d ∉ m.*1.
Proof.
  induction m as [|[k x] m IH]; simpl.
  - split; [intros _ H; by apply elem_of_nil in H|done].
  - rewrite not_elem_of_cons. destruct (String.eqb_spec k d) as [->|Hne].
    + split; [discriminate|intros [H _]; by destruct H].
    + rewrite IH. split; [intros H; split; [congruence|exact H]|tauto].
Qed.

Lemma get_Some_elem (d : string) (x : float) (m : scores) :
  get d m = Some x -> (d, x) ∈ m.
Proof.
  induction m as [|[k y] m IH]; simpl; [discriminate|].
  destruct (String.eqb_spec k d) as [->|Hne].
  - intros [= ->]. left.
  - intros H. right. by apply IH.
Qed.

(** In a mapping, whose keys are distinct, an entry is what [get] finds. *)
Lemma elem_get (d : string) (x : float) (m : scores) :
  NoDup m.*1 -> (d, x) ∈ m -> get d m = Some x.
Proof.
  induction m as [|[k y] m IH]; simpl; intros Hnd Hin.
  - by apply elem_of_nil in Hin.
  - apply NoDup_cons in Hnd as [Hk Hnd].
    apply elem_of_cons in Hin as [[= -> ->]|Hin].
    + by rewrite String.eqb_refl.
    + destruct (String.eqb_spec k d) as [->|Hne]; [|by apply IH].
      destruct Hk. apply list_elem_of_fmap. by exists (d, x).
Qed.

Lemma record_score_keys (d : string) (s : float) (m : scores) :
  (record_score d s m).*1 = if decide (d ∈ m.*1) then m.*1 else m.*1 ++ [d].
Proof.
  induction m as [|[k x] m IH]; cbn [record_score].
  - destruct (decide (d ∈ ([] : scores).*1)) as [H|_]; [|done].
    by apply elem_of_nil in H.
  - rewrite !fmap_cons. cbn [fst].
    destruct (String.eqb_spec k d) as [->|Hne]; rewrite ?fmap_cons; cbn [fst].
    + destruct (decide (d ∈ d :: m.*1)) as [_|H]; [done|].
      destruct H. left.
    + rewrite IH.
      destruct (decide (d ∈ m.*1)) as [Hin|Hin],
               (decide (d ∈ k :: m.*1)) as [Hin'|Hin']; try done.
      * destruct Hin'. by right.
      * apply elem_of_cons in Hin' as [->|Hin']; contradiction.
Qed.

Lemma get_record_score_eq (d : string) (s : float) (m : scores) :
  get d (record_score d s m)
  = Some (match get d m with Some x => py_max2 x s | None => s end).
Proof.
  induction m as [|[k x] m IH]; simpl.
  - by rewrite String.eqb_refl.
  - destruct (String.eqb_spec k d) as [->|Hne]; simpl.
    + by rewrite String.eqb_refl.
    + by apply String.eqb_neq in Hne as ->.
Qed.

Lemma get_record_score_ne (d d' : string) (s : float) (m : scores) :
  d <> d' -> get d' (record_score d s m) = get d' m.
Proof.
  intros Hne. induction m as [|[k x] m IH]; simpl.
  - by apply String.eqb_neq in Hne as ->.
  - destruct (String.eqb_spec k d) as [->|Hkd]; simpl.
    + by apply String.eqb_neq in Hne as ->.
    + by rewrite IH.
Qed.

Lemma record_score_NoDup (d : string) (s : float) (m : scores) :
  NoDup m.*1 -> NoDup (record_score d s m).*1.
Proof.
  intros Hnd. rewrite record_score_keys.
  destruct (decide (d ∈ m.*1)) as [Hin|Hin]; [assumption|].
  apply NoDup_app. split_and!; [assumption| |apply NoDup_singleton].
  intros k Hk Hkd. apply list_elem_of_singleton in Hkd as ->. contradiction.
Qed.

Lemma record_score_numbers (d : string) (s : float) (m : scores) :
  number s -> Forall number m.*2 -> Forall number (record_score d s m).*2.
Proof.
  intros Hs. induction m as [|[k x] m IH]; simpl; intros Hm.
  - by constructor.
  - inversion Hm as [|? ? Hx Hm']; subst.
    destruct (String.eqb k d); simpl; constructor; auto.
    by apply py_max2_number.
Qed.

Lemma record_score_unit (d : string) (s : float) (m : scores) :
  unit_interval s -> Forall unit_interval m.*2 ->
  Forall unit_interval (record_score d s m).*2.
Proof.
  intros Hs. induction m as [|[k x] m IH]; simpl; intros Hm.
  - by constructor.
  - inversion Hm as [|? ? Hx Hm']; subst.
    destruct (String.eqb k d); simpl; constructor; auto.
    by destruct (py_max2_cases x s) as [->| ->].
Qed.

(** *** The loop of [infer_diseases] *)

Lemma infer_from_cons v r R acc :
  infer_from v (r :: R) acc
  = infer_from v R (record_score (disease r) (evaluate_rule r v) acc).
Proof. reflexivity. Qed.

Lemma infer_from_snoc v r R acc :
  infer_from v (R ++ [r]) acc
  = record_score (disease r) (evaluate_rule r v) (infer_from v R acc).
Proof. unfold infer_from. by rewrite fold_left_app. Qed.

Lemma infer_from_NoDup v R : forall acc,
  NoDup acc.*1 -> NoDup (infer_from v R acc).*1.
Proof.
  induction R as [|r R IH]; intros acc Hnd; [assumption|].
  rewrite infer_from_cons. by apply IH, record_score_NoDup.
Qed.

Lemma infer_from_keys v R : forall acc d,
  d ∈ (infer_from v R acc).*1 <->
  d ∈ acc.*1 \/ exists r, r ∈ R /\ disease r = d.
Proof.
  induction R as [|r R IH]; intros acc d.
  - simpl. split; [by left|]. intros [H|(r & Hr & _)]; [assumption|].
    by apply elem_of_nil in Hr.
  - rewrite infer_from_cons, IH, record_score_keys.
    destruct (decide (disease r ∈ acc.*1)) as [Hin|Hin].
    + split.
      * intros [H|(r' & Hr' & <-)]; [by left|right].
        exists r'. split; [by right|done].
      * intros [H|(r' & Hr' & <-)]; [by left|].
        apply elem_of_cons in Hr' as [->|Hr']; [by left|right].
        by exists r'.
    + rewrite elem_of_app, list_elem_of_singleton. split.
      * intros [[H| ->]|(r' & Hr' & <-)].
        -- by left.
        -- right. exists r. split; [left|done].
        -- right. exists r'. split; [by right|done].
      * intros [H|(r' & Hr' & <-)]; [by do 2 left|].
        apply elem_of_cons in Hr' as [->|Hr']; [by left; right|right].
        by exists r'.
Qed.

Lemma infer_from_numbers v R : number_values v -> forall acc,
  Forall number acc.*2 -> Forall number (infer_from v R acc).*2.
Proof.
  intros Hv. induction R as [|r R IH]; intros acc Hacc; [assumption|].
  rewrite infer_from_cons.
  by apply IH, record_score_numbers; [apply evaluate_rule_number|].
Qed.

Lemma infer_from_unit v R : unit_values v -> forall acc,
  Forall unit_interval acc.*2 -> Forall unit_interval (infer_from v R acc).*2.
Proof.
  intros Hv. induction R as [|r R IH]; intros acc Hacc; [assumption|].
  rewrite infer_from_cons.
  by apply IH, record_score_unit; [apply evaluate_rule_unit|].
Qed.

(** What the loop stores under a key: the fold of [max] over the scores
    of the rules of that diagnosis, seeded by the first of them (or by what
    was stored before the loop). *)
Lemma get_infer_from v R d : forall acc,
  get d (infer_from v R acc)
  = match get d acc, label_scores v R d with
    | Some x, ss => Some (fold_left py_max2 ss x)
    | None, [] => None
    | None, s :: ss => Some (fold_left py_max2 ss s)
    end.
Proof.
  unfold label_scores. induction R as [|r R IH]; intros acc.
  - simpl. by destruct (get d acc).
  - rewrite infer_from_cons, IH, filter_cons.
    destruct (decide (disease r = d)) as [<-|Hne].
    + rewrite get_record_score_eq, fmap_cons. simpl.
      by destruct (get (disease r) acc).
    + by rewrite get_record_score_ne.
Qed.

(** ** Selection of the best diagnosis *)

Lemma py_max_by_score_cons x a xs :
  py_max_by_score x (a :: xs)
  = py_max_by_score (if x.2 <? a.2 then a else x) xs.
Proof. reflexivity. Qed.

Lemma py_max_by_score_elem xs : forall x, py_max_by_score x xs ∈ x :: xs.
Proof.
  induction xs as [|a xs IH]; intros x; [left|].
  rewrite py_max_by_score_cons.
  specialize (IH (if x.2 <? a.2 then a else x)).
  destruct (x.2 <? a.2).
  - by right.
  - apply elem_of_cons in IH as [->|IH]; [left|by do 2 right].
Qed.

(** One comparison of [max(..., key=...)]: the new best item is above
    both the old one and the item, and the old one stays unless the item
    is strictly above it. *)
Lemma max_step (best it : string * float) :
  number best.2 -> number it.2 ->
  let best' := if best.2 <? it.2 then it else best in
  number best'.2 /\ (best.2 <=? best'.2) = true /\
  (it.2 <=? best'.2) = true.
Proof.
  intros Hb Hi. cbv zeta. destruct (best.2 <? it.2) eqn:E.
  - auto using leb_refl, ltb_leb.
  - rewrite ltb_negb_leb in E by assumption.
    apply negb_false_iff in E. auto using leb_refl.
Qed.

Lemma py_max_by_score_upper xs : forall x,
  Forall number (x :: xs).*2 ->
  forall it, it ∈ x :: xs -> (it.2 <=? (py_max_by_score x xs).2) = true.
Proof.
  induction xs as [|a xs IH]; intros x Hn it Hit.
  - apply list_elem_of_singleton in Hit as ->. apply leb_refl.
    by inversion Hn.
  - rewrite py_max_by_score_cons.
    rewrite !fmap_cons in Hn.
    inversion Hn as [|? ? Hx Hn']; subst.
    inversion Hn' as [|? ? Ha Hxs]; subst.
    destruct (max_step x a Hx Ha) as (Hb & Hxb & Hab).
    set (best := if x.2 <? a.2 then a else x) in *.
    assert (Hbest : Forall number (best :: xs).*2)
      by (rewrite fmap_cons; constructor; assumption).
    assert (Hm : (best.2 <=? (py_max_by_score best xs).2) = true)
      by (apply (IH best Hbest); left).
    rewrite !elem_of_cons in Hit. destruct Hit as [->|[->|Hit]].
    + eauto using leb_trans.
    + eauto using leb_trans.
    + apply (IH best Hbest). by right.
Qed.

(** The selected item is the first of the items with the highest score:
    every item before it has a strictly smaller score. *)
Lemma py_max_by_score_first xs : forall x,
  Forall number (x :: xs).*2 ->
  exists i, (x :: xs) !! i = Some (py_max_by_score x xs) /\
    forall j it, (j < i)%nat -> (x :: xs) !! j = Some it ->
      (it.2 <? (py_max_by_score x xs).2) = true.
Proof.
  induction xs as [|a xs IH]; intros x Hn.
  - exists 0%nat. split; [reflexivity|]. intros j it Hj. lia.
  - rewrite py_max_by_score_cons.
    pose proof Hn as Hn0. rewrite !fmap_cons in Hn.
    inversion Hn as [|? ? Hx Hn']; subst.
    inversion Hn' as [|? ? Ha Hxs]; subst.
    destruct (x.2 <? a.2) eqn:E.
    + (* the second item takes over *)
      assert (Hna : Forall number (a :: xs).*2)
        by (rewrite fmap_cons; constructor; assumption).
      destruct (IH a Hna) as (i & Hi & Hbefore).
      exists (S i). split; [exact Hi|].
      intros [|j] it Hj Hlook.
      * injection Hlook as <-.
        apply (ltb_leb_trans _ a.2); [assumption..|].
        apply py_max_by_score_upper; [assumption|left].
      * apply (Hbefore j); [lia|exact Hlook].
    + (* the first item stays *)
      assert (Hnx : Forall number (x :: xs).*2)
        by (rewrite fmap_cons; constructor; assumption).
      destruct (IH x Hnx) as (i & Hi & Hbefore).
      destruct i as [|i].
      * exists 0%nat. split; [exact Hi|]. intros j it Hj. lia.
      * exists (S (S i)). split; [exact Hi|].
        assert (Hxb : (x.2 <? (py_max_by_score x xs).2) = true)
          by (apply (Hbefore 0%nat); [lia|reflexivity]).
        intros [|[|j]] it Hj Hlook.
        -- by injection Hlook as <-.
        -- injection Hlook as <-.
           rewrite ltb_negb_leb in E by assumption.
           apply negb_false_iff in E.
           apply (leb_ltb_trans _ x.2); [|assumption..].
           assert (Hin : py_max_by_score x xs ∈ x :: xs)
             by apply py_max_by_score_elem.
           apply (list_elem_of_fmap_2 snd) in Hin.
           revert Hin. apply Forall_forall. exact Hnx.
        -- apply (Hbefore (S j)); [lia|exact Hlook].
Qed.

(** *** The order of the keys follows the rule base *)

(** A key that stands before another one in the result has a rule before
    (or at) every rule of the other one. *)
Lemma infer_key_order v R : forall i j d d',
  (infer_diseases v R).*1 !! i = Some d ->
  (infer_diseases v R).*1 !! j = Some d' ->
  (i <= j)%nat ->
  forall k r', R !! k = Some r' -> disease r' = d' ->
  exists k0 r0, (k0 <= k)%nat /\ R !! k0 = Some r0 /\ disease r0 = d.
Proof.
  unfold infer_diseases.
  induction R as [|r R IH] using rev_ind; intros i j d d' Hi Hj Hij k r' Hk Hd'.
  - discriminate.
  - rewrite infer_from_snoc, record_score_keys in Hi, Hj.
    set (keys := (infer_from v R []).*1) in *.
    assert (Hpre : forall n x, keys !! n = Some x ->
              (if decide (disease r ∈ keys) then keys
               else keys ++ [disease r]) !! n = Some x).
    { intros n x Hn. destruct (decide _); [exact Hn|].
      by apply lookup_app_l_Some. }
    assert (Hnd : NoDup (if decide (disease r ∈ keys) then keys
                         else keys ++ [disease r])).
    { pose proof (record_score_NoDup (disease r) (evaluate_rule r v)
                    (infer_from v R [])) as H.
      rewrite record_score_keys in H. apply H, infer_from_NoDup.
      constructor. }
    destruct (decide (k < length R)%nat) as [Hlt|Hge].
    + (* a rule of [R]: both keys were already there *)
      rewrite lookup_app_l in Hk by assumption.
      assert (Hin : d' ∈ keys).
      { apply infer_from_keys. right. exists r'.
        split; [by eapply list_elem_of_lookup_2|assumption]. }
      apply list_elem_of_lookup_1 in Hin as [j0 Hj0].
      assert (j0 = j) as -> by (eapply NoDup_lookup; eauto).
      assert (Hi0 : keys !! i = Some d).
      { apply lookup_lt_Some in Hj0.
        destruct (keys !! i) as [x|] eqn:E.
        - apply Hpre in E. congruence.
        - apply lookup_ge_None in E. lia. }
      destruct (IH i j d d' Hi0 Hj0 Hij k r' Hk Hd') as (k0 & r0 & ? & ? & ?).
      exists k0, r0. split_and!; [assumption| |assumption].
      by apply lookup_app_l_Some.
    + (* the last rule: every key has a rule no later than it *)
      pose proof (lookup_lt_Some _ _ _ Hk) as Hlen.
      rewrite length_app in Hlen. simpl in Hlen.
      assert (Hin : d ∈ (infer_from v (R ++ [r]) []).*1).
      { rewrite infer_from_snoc, record_score_keys.
        by eapply list_elem_of_lookup_2. }
      apply infer_from_keys in Hin as [Hin|(r0 & Hr0 & Hd0)];
        [by apply elem_of_nil in Hin|].
      apply list_elem_of_lookup_1 in Hr0 as [k0 Hk0].
      exists k0, r0. split_and!; [|assumption..].
      apply lookup_lt_Some in Hk0. rewrite length_app in Hk0.
      simpl in Hk0. lia.
Qed.

Lemma infer_diseases_keys_aux v R d :
  d ∈ (infer_diseases v R).*1 <-> exists r, r ∈ R /\ disease r = d.
Proof.
  unfold infer_diseases. rewrite infer_from_keys.
  split; [|by right]. intros [H|H]; [|exact H].
  by apply elem_of_nil in H.
Qed.

(** ** The sample data are numbers of the unit interval *)

Lemma symptoms_unit : unit_values symptoms.
Proof.
  refine (bool_decide_unpack
            (map_Forall (fun _ x => unit_interval x) symptoms) _).
  vm_compute. exact I.
Qed.

Lemma symptoms_number : number_values symptoms.
Proof. intros s x H. eapply unit_interval_number, symptoms_unit, H. Qed.

(** ** The properties of the specification *)

(** C1. [evaluate_rule] is the minimum, over the conditions of the rule,
    of the symptom value (present polarity) or of one minus that value
    (absent polarity), a symptom missing from the mapping counting for
    [0.0]; a rule without conditions scores [0.0].  The score is always
    one of the adjusted values; it is below all of them as soon as the
    symptom values are numbers, which is what gives "minimum" a meaning. *)
Theorem evaluate_rule_is_minimum (r : rule) (v : gmap string float) :
  (conditions r = [] -> evaluate_rule r v = 0) /\
  (forall s d,
     condition_value v (s, d) =
       let val := match v !! s with Some x => x | None => 0 end in
       if d then val else 1 - val) /\
  (conditions r <> [] ->
     evaluate_rule r v ∈ condition_value v <$> conditions r /\
     (number_values v ->
        is_minimum (evaluate_rule r v)
          (condition_value v <$> conditions r))).
Proof.
  split_and!.
  - apply evaluate_rule_empty.
  - intros s d. unfold condition_value. simpl. by destruct (v !! s).
  - intros Hne. split; [by apply evaluate_rule_elem|].
    intros Hv. by apply evaluate_rule_minimum.
Qed.

Lemma evaluate_rule_is_minimum_witness :
  is_minimum
    (evaluate_rule
       (Rule "cold" [("sore_throat"%string, true); ("fever"%string, false);
                     ("sneezing"%string, true)]) symptoms)
    (condition_value symptoms <$>
       [("sore_throat"%string, true); ("fever"%string, false);
        ("sneezing"%string, true)]).
Proof.
  refine (proj2 (proj2 (proj2
    (evaluate_rule_is_minimum
       (Rule "cold" [("sore_throat"%string, true); ("fever"%string, false);
                     ("sneezing"%string, true)]) symptoms)) _) _).
  - discriminate.
  - exact symptoms_number.
Defined.

(** C2. The mapping returned by [infer_diseases] has exactly the
    diagnosis labels of the rule base as its keys, each once, and maps
    each of them to the maximum of the scores of the rules of that label;
    an empty rule base gives the empty mapping. *)
Theorem infer_diseases_is_maximum (R : list rule) (v : gmap string float) :
  (forall d, d ∈ (infer_diseases v R).*1 <->
             exists r, r ∈ R /\ disease r = d) /\
  NoDup (infer_diseases v R).*1 /\
  (number_values v ->
     forall d x, (d, x) ∈ infer_diseases v R ->
       is_maximum x (label_scores v R d)) /\
  infer_diseases v [] = [].
Proof.
  assert (Hnd : NoDup (infer_diseases v R).*1)
    by (apply infer_from_NoDup; constructor).
  split_and!; [|exact Hnd| |reflexivity].
  - intros d. unfold infer_diseases. rewrite infer_from_keys.
    split; [|by right]. intros [H|H]; [|exact H].
    by apply elem_of_nil in H.
  - intros Hv d x Hin. apply elem_get in Hin; [|exact Hnd].
    unfold infer_diseases in Hin. rewrite get_infer_from in Hin.
    simpl in Hin.
    assert (Hn : Forall number (label_scores v R d)).
    { apply Forall_fmap, Forall_forall. intros r _.
      by apply evaluate_rule_number. }
    destruct (label_scores v R d) as [|s ss]; [discriminate|].
    injection Hin as <-. by apply fold_max_is_maximum.
Qed.

Lemma infer_diseases_is_maximum_witness :
  is_maximum 0.1 (label_scores symptoms rules "cold").
Proof.
  refine (proj1 (proj2 (proj2 (infer_diseases_is_maximum rules symptoms)))
            symptoms_number "cold"%string 0.1 _).
  vm_compute. right. left.
Defined.

(** C3. When every symptom value lies in [[0, 1]], so does the score of
    every rule and every score of the mapping returned by
    [infer_diseases]; a missing symptom counts for [0.0] and the rounded
    subtraction [1.0 - val] stays in the interval. *)
Theorem scores_in_unit_interval (v : gmap string float) :
  unit_values v ->
  (forall r, unit_interval (evaluate_rule r v)) /\
  (forall R d x, (d, x) ∈ infer_diseases v R -> unit_interval x).
Proof.
  intros Hv. split; [intros r; by apply evaluate_rule_unit|].
  intros R d x Hin.
  assert (Hall : Forall unit_interval (infer_diseases v R).*2)
    by (apply infer_from_unit; [assumption|constructor]).
  apply (list_elem_of_fmap_2 snd) in Hin. revert Hin.
  by apply Forall_forall.
Qed.

Lemma scores_in_unit_interval_witness :
  (forall r, unit_interval (evaluate_rule r symptoms)) /\
  (forall R d x, (d, x) ∈ infer_diseases symptoms R -> unit_interval x).
Proof. exact (scores_in_unit_interval symptoms symptoms_unit). Defined.

(** C4. On a non-empty mapping [defuzzify_diseases] returns an entry of
    the mapping whose score is the maximum of the scores; on a mapping
    with one entry it returns that entry.  The keys of a mapping are
    distinct and its scores are numbers. *)
Theorem defuzzify_diseases_is_maximum :
  (forall d x, defuzzify_diseases [(d, x)] = (Some d, x)) /\
  (forall m : scores,
     m <> [] -> NoDup m.*1 -> Forall number m.*2 ->
     exists label score,
       defuzzify_diseases m = (Some label, score) /\
       (label, score) ∈ m /\
       get label m = Some score /\
       is_maximum score m.*2).
Proof.
  split; [reflexivity|].
  intros [|x xs] Hne Hnd Hn; [contradiction|].
  pose proof (py_max_by_score_elem xs x) as Hin.
  pose proof (py_max_by_score_upper xs x Hn) as Hup.
  unfold defuzzify_diseases. cbv zeta.
  destruct (py_max_by_score x xs) as [label score].
  exists label, score.
  split_and!; [reflexivity|exact Hin|by apply elem_get|].
  split; [by apply (list_elem_of_fmap_2 snd) in Hin|].
  intros y Hy. apply list_elem_of_fmap in Hy as (it & -> & Hit).
  by apply Hup.
Qed.

Lemma defuzzify_diseases_is_maximum_witness :
  exists label score,
    defuzzify_diseases [("flu"%string, 0.4); ("cold"%string, 0.1)]
      = (Some label, score) /\
    (label, score) ∈ [("flu"%string, 0.4); ("cold"%string, 0.1)] /\
    get label [("flu"%string, 0.4); ("cold"%string, 0.1)] = Some score /\
    is_maximum score [("flu"%string, 0.4); ("cold"%string, 0.1)].*2.
Proof.
  refine (proj2 defuzzify_diseases_is_maximum
            [("flu"%string, 0.4); ("cold"%string, 0.1)] _ _ _).
  - discriminate.
  - refine (bool_decide_unpack (NoDup ["flu"%string; "cold"%string]) _).
    vm_compute. exact I.
  - repeat constructor.
Defined.

(** C5. On the empty mapping [defuzzify_diseases] returns [(None, 0.0)]. *)
Theorem defuzzify_diseases_empty : defuzzify_diseases [] = (None, 0).
Proof. reflexivity. Qed.

(** C6. [evaluate_rule] raises no exception, whatever the rule and the
    mapping: the evaluation that keeps Python's exceptional branches
    visible always returns, with the value of [evaluate_rule]; and a
    condition on a symptom that the mapping lacks is evaluated with the
    value [0.0]. *)
Theorem evaluate_rule_total (r : rule) (v : gmap string float) :
  evaluate_rule_exc r v = Some (evaluate_rule r v) /\
  (forall s d, v !! s = None ->
     condition_value v (s, d) = if d then 0 else 1 - 0).
Proof.
  split.
  - unfold evaluate_rule_exc, evaluate_rule.
    rewrite mapM_condition_values. simpl.
    by destruct (condition_value v <$> conditions r).
  - intros s d Hs. unfold condition_value. simpl. by rewrite Hs.
Qed.

(** C7. Reordering the conditions of a rule does not change its score:
    two rules with the same label and the same conditions in a different
    order obtain equal scores (Python's [==] on floats), on every mapping
    of numbers. *)
Theorem evaluate_rule_permutation
    (d : string) (cs cs' : list condition) (v : gmap string float) :
  number_values v -> cs ≡ₚ cs' ->
  (evaluate_rule (Rule d cs) v =? evaluate_rule (Rule d cs') v) = true.
Proof.
  intros Hv Hp. destruct cs as [|c cs].
  - apply Permutation_nil_l in Hp. subst cs'. reflexivity.
  - assert (Hne' : cs' <> []).
    { intros E. subst cs'. by apply Permutation_nil_r in Hp. }
    destruct (evaluate_rule_minimum (Rule d (c :: cs)) v Hv) as [Hin Hlow];
      [discriminate|].
    destruct (evaluate_rule_minimum (Rule d cs') v Hv) as [Hin' Hlow'];
      [exact Hne'|].
    cbn [conditions] in *.
    assert (Hpv : condition_value v <$> c :: cs
                  ≡ₚ condition_value v <$> cs') by (by apply fmap_Permutation).
    rewrite eqb_leb. apply andb_true_intro. split.
    + apply Hlow. by rewrite Hpv.
    + apply Hlow'. by rewrite <- Hpv.
Qed.

Lemma evaluate_rule_permutation_witness :
  (evaluate_rule
     (Rule "cold" [("sore_throat"%string, true); ("fever"%string, false)])
     symptoms
   =? evaluate_rule
        (Rule "cold" [("fever"%string, false); ("sore_throat"%string, true)])
        symptoms) = true.
Proof.
  apply (evaluate_rule_permutation "cold"
           [("sore_throat"%string, true); ("fever"%string, false)]
           [("fever"%string, false); ("sore_throat"%string, true)]
           symptoms symptoms_number).
  apply perm_swap.
Defined.

(** C8. A symptom value outside [[0, 1]] is used as it is: with a value
    above [1.0] and a condition of absent polarity the score of the rule
    is [1.0 - val], a negative number, outside [[0, 1]]. *)
Theorem out_of_range_value_unclamped :
  exists (v : gmap string float) (r : rule) (s : string) (x : float),
    v !! s = Some x /\ (1 <? x) = true /\
    conditions r = [(s, false)] /\
    evaluate_rule r v = 1 - x /\
    (evaluate_rule r v <? 0) = true /\
    ~ unit_interval (evaluate_rule r v).
Proof.
  exists {[ "fever"%string := 1.5 ]}, (Rule "cold" [("fever"%string, false)]),
    "fever"%string, 1.5.
  split_and!; try (vm_compute; reflexivity).
  intros [H _]. vm_compute in H. discriminate.
Qed.

(** C9. On the sample symptom values and the sample rule base of five
    rules, [infer_diseases] yields flu = 0.4, cold = 0.1 and
    pharyngitis = 0.7, and [defuzzify_diseases] returns pharyngitis with
    0.7. *)
Theorem sample_diagnosis :
  infer_diseases symptoms rules
    = [("flu"%string, 0.4); ("cold"%string, 0.1);
       ("pharyngitis"%string, 0.7)] /\
  defuzzify_diseases (infer_diseases symptoms rules)
    = (Some "pharyngitis"%string, 0.7).
Proof. split; vm_compute; reflexivity. Qed.

(** C10. Among several entries with the highest score,
    [defuzzify_diseases] returns the first one in insertion order: the
    returned score is the highest of the mapping, every entry before the
    returned one has a strictly smaller score, so an entry with an equal
    score stands after it.  In a mapping built by [infer_diseases] the
    returned score is above every score of the mapping and the returned
    diagnosis is, among those with that score, the one whose first rule
    comes earliest in the rule base: that rule precedes every rule of a
    diagnosis with an equal score. *)
Theorem defuzzify_diseases_first_maximum :
  (forall m : scores,
     m <> [] -> Forall number m.*2 ->
     exists (i : nat) label score,
       defuzzify_diseases m = (Some label, score) /\
       m !! i = Some (label, score) /\
       (forall j it, m !! j = Some it -> (it.2 <=? score) = true) /\
       (forall j it, (j < i)%nat -> m !! j = Some it ->
          (it.2 <? score) = true) /\
       (forall j it, m !! j = Some it -> (it.2 =? score) = true ->
          (i <= j)%nat)) /\
  (forall (v : gmap string float) (R : list rule) d score,
     number_values v ->
     defuzzify_diseases (infer_diseases v R) = (Some d, score) ->
     (d, score) ∈ infer_diseases v R /\
     (forall d' score',
        (d', score') ∈ infer_diseases v R -> (score' <=? score) = true) /\
     (forall d' score',
        (d', score') ∈ infer_diseases v R -> (score' =? score) = true ->
        exists (i : nat) r,
          R !! i = Some r /\ disease r = d /\
          (forall k r', R !! k = Some r' -> disease r' = d -> (i <= k)%nat) /\
          (forall k r', R !! k = Some r' -> disease r' = d' ->
             (i <= k)%nat))).
Proof.
  assert (Hfirst : forall m : scores,
     m <> [] -> Forall number m.*2 ->
     exists (i : nat) label score,
       defuzzify_diseases m = (Some label, score) /\
       m !! i = Some (label, score) /\
       (forall j it, m !! j = Some it -> (it.2 <=? score) = true) /\
       (forall j it, (j < i)%nat -> m !! j = Some it ->
          (it.2 <? score) = true) /\
       (forall j it, m !! j = Some it -> (it.2 =? score) = true ->
          (i <= j)%nat)).
  { intros [|x xs] Hne Hn; [contradiction|].
    destruct (py_max_by_score_first xs x Hn) as (i & Hi & Hbefore).
    pose proof (py_max_by_score_upper xs x Hn) as Hup.
    unfold defuzzify_diseases. cbv zeta.
    destruct (py_max_by_score x xs) as [label score].
    simpl in Hbefore, Hup.
    exists i, label, score.
    split_and!; [reflexivity|exact Hi| |exact Hbefore|].
    - intros j it Hj. apply Hup. by eapply list_elem_of_lookup_2.
    - intros j it Hj Heq. destruct (decide (j < i)%nat) as [Hlt|]; [|lia].
      pose proof (ltb_not_eqb _ _ (Hbefore j it Hlt Hj)). congruence. }
  split; [exact Hfirst|].
  intros v R d score Hv Hbest.
  assert (Hn : Forall number (infer_diseases v R).*2)
    by (apply infer_from_numbers; [assumption|constructor]).
  assert (Hne : infer_diseases v R <> [])
    by (intros E; rewrite E in Hbest; discriminate).
  destruct (Hfirst _ Hne Hn) as (i & label & s & Hdef & Hi & Hmax & _ & Hties).
  rewrite Hbest in Hdef. injection Hdef as <- <-.
  split_and!.
  - by eapply list_elem_of_lookup_2.
  - intros d' score' Hin'.
    apply list_elem_of_lookup_1 in Hin' as [j Hj].
    exact (Hmax j (d', score') Hj).
  - intros d' score' Hin' Heq.
    apply list_elem_of_lookup_1 in Hin' as [j Hj].
    pose proof (Hties j (d', score') Hj Heq) as Hij.
    assert (Hki : (infer_diseases v R).*1 !! i = Some d).
    { rewrite list_lookup_fmap. exact (f_equal (fmap fst) Hi). }
    assert (Hkj : (infer_diseases v R).*1 !! j = Some d').
    { rewrite list_lookup_fmap. exact (f_equal (fmap fst) Hj). }
    (* the first rule of [d] *)
    assert (Hd : exists r, r ∈ R /\ disease r = d).
    { apply (proj1 (infer_diseases_keys_aux v R d)).
      by eapply list_elem_of_lookup_2. }
    destruct Hd as (r1 & Hr1 & Hd1).
    destruct (list_find (fun r => disease r = d) R) as [[i0 r0]|] eqn:Ef.
    + apply list_find_Some in Ef as (Hi0 & Hd0 & Hmin).
      exists i0, r0. split_and!; [exact Hi0|exact Hd0| |].
      * intros k r' Hk Hdk. destruct (decide (k < i0)%nat) as [Hlt|]; [|lia].
        by destruct (Hmin k r' Hk Hlt).
      * intros k r' Hk Hdk.
        destruct (infer_key_order v R i j d d' Hki Hkj Hij k r' Hk Hdk)
          as (k0 & rk & Hle & Hk0 & Hdk0).
        destruct (decide (k0 < i0)%nat) as [Hlt|]; [|lia].
        by destruct (Hmin k0 rk Hk0 Hlt).
    + apply list_find_None in Ef. rewrite Forall_forall in Ef.
      by destruct (Ef r1 Hr1).
Qed.

Lemma defuzzify_diseases_first_maximum_witness :
  (exists (i : nat) label score,
     defuzzify_diseases
       [("flu"%string, 0.4); ("cold"%string, 0.7);
        ("pharyngitis"%string, 0.7)] = (Some label, score) /\
     [("flu"%string, 0.4); ("cold"%string, 0.7);
      ("pharyngitis"%string, 0.7)] !! i = Some (label, score) /\
     (forall j it,
        [("flu"%string, 0.4); ("cold"%string, 0.7);
         ("pharyngitis"%string, 0.7)] !! j = Some it ->
        (it.2 <=? score) = true) /\
     (forall j it, (j < i)%nat ->
        [("flu"%string, 0.4); ("cold"%string, 0.7);
         ("pharyngitis"%string, 0.7)] !! j = Some it ->
        (it.2 <? score) = true) /\
     (forall j it,
        [("flu"%string, 0.4); ("cold"%string, 0.7);
         ("pharyngitis"%string, 0.7)] !! j = Some it ->
        (it.2 =? score) = true -> (i <= j)%nat)) /\
  (("flu"%string, 0.8) ∈
     infer_diseases symptoms
       [Rule "cold" [("sneezing"%string, true)];
        Rule "flu" [("fever"%string, true)];
        Rule "pharyngitis" [("fever"%string, true)]] /\
   (forall d' score',
      (d', score') ∈
        infer_diseases symptoms
          [Rule "cold" [("sneezing"%string, true)];
           Rule "flu" [("fever"%string, true)];
           Rule "pharyngitis" [("fever"%string, true)]] ->
      (score' <=? 0.8) = true) /\
   (forall d' score',
      (d', score') ∈
        infer_diseases symptoms
          [Rule "cold" [("sneezing"%string, true)];
           Rule "flu" [("fever"%string, true)];
           Rule "pharyngitis" [("fever"%string, true)]] ->
      (score' =? 0.8) = true ->
      exists (i : nat) r,
        [Rule "cold" [("sneezing"%string, true)];
         Rule "flu" [("fever"%string, true)];
         Rule "pharyngitis" [("fever"%string, true)]] !! i = Some r /\
        disease r = "flu"%string /\
        (forall k r',
           [Rule "cold" [("sneezing"%string, true)];
            Rule "flu" [("fever"%string, true)];
            Rule "pharyngitis" [("fever"%string, true)]] !! k = Some r' ->
           disease r' = "flu"%string -> (i <= k)%nat) /\
        (forall k r',
           [Rule "cold" [("sneezing"%string, true)];
            Rule "flu" [("fever"%string, true)];
            Rule "pharyngitis" [("fever"%string, true)]] !! k = Some r' ->
           disease r' = d' -> (i <= k)%nat))).
Proof.
  split.
  - refine (proj1 defuzzify_diseases_first_maximum
              [("flu"%string, 0.4); ("cold"%string, 0.7);
               ("pharyngitis"%string, 0.7)] _ _).
    + discriminate.
    + repeat constructor.
  - refine (proj2 defuzzify_diseases_first_maximum symptoms
              [Rule "cold" [("sneezing"%string, true)];
               Rule "flu" [("fever"%string, true)];
               Rule "pharyngitis" [("fever"%string, true)]]
              "flu"%string 0.8 symptoms_number _).
    vm_compute. reflexivity.
Defined.

(** ** Remarks *)

(** The last of the three rules of the sample for "cold" scores the float
    just below [0.1], because [1.0 - 0.9] is rounded; the maximum over the
    three rules is the [0.1] of the other two. *)
Example sample_rule_scores :
  (fun r => evaluate_rule r symptoms) <$> rules
  = [0.4; 0.1; 0.7; 0.1; 0.09999999999999998].
Proof. vm_compute. reflexivity. Qed.

(** Why the symptom values are asked to be numbers: a NaN compares false
    with everything, is kept by [min] when it comes first and skipped
    otherwise. *)
Example nan_is_not_ordered :
  let v : gmap string float :=
    {[ "fever"%string := 1; "sneezing"%string := nan ]} in
  evaluate_rule
    (Rule "cold" [("fever"%string, true); ("sneezing"%string, true)]) v = 1
  /\ is_nan
       (evaluate_rule
          (Rule "cold" [("sneezing"%string, true); ("fever"%string, true)]) v)
     = true.
Proof. split; vm_compute; reflexivity. Qed.

(** ** Further properties of the engine and of the script *)

(** *** Entries of the inferred mapping *)

Lemma fold_max_elem (ss : list float) : forall x,
  fold_left py_max2 ss x ∈ x :: ss.
Proof.
  induction ss as [|s ss IH]; intros x; [left|]. simpl.
  specialize (IH (py_max2 x s)).
  apply elem_of_cons in IH as [->|IH]; [|by do 2 right].
  destruct (py_max2_cases x s) as [->| ->]; [left|right; left].
Qed.

Lemma label_scores_elem v R d x :
  x ∈ label_scores v R d <->
  exists r, r ∈ R /\ disease r = d /\ evaluate_rule r v = x.
Proof.
  unfold label_scores. rewrite list_elem_of_fmap. split.
  - intros (r & -> & Hr). apply list_elem_of_filter in Hr as [Hd Hr].
    by exists r.
  - intros (r & Hr & Hd & <-). exists r. split; [done|].
    by apply list_elem_of_filter.
Qed.

Lemma label_scores_number v R d :
  number_values v -> Forall number (label_scores v R d).
Proof.
  intros Hv. apply Forall_fmap, Forall_forall. intros r _.
  by apply evaluate_rule_number.
Qed.

(** The score stored under a key is the score of one of its rules. *)
Lemma infer_entry_score v R d x :
  (d, x) ∈ infer_diseases v R -> x ∈ label_scores v R d.
Proof.
  intros Hin. apply elem_get in Hin; [|apply infer_from_NoDup; constructor].
  unfold infer_diseases in Hin. rewrite get_infer_from in Hin. simpl in Hin.
  destruct (label_scores v R d) as [|s ss]; [discriminate|].
  injection Hin as <-. apply fold_max_elem.
Qed.

Lemma infer_entry_maximum v R d x :
  number_values v ->
  (d, x) ∈ infer_diseases v R -> is_maximum x (label_scores v R d).
Proof.
  intros Hv Hin. pose proof (label_scores_number v R d Hv) as Hn.
  apply elem_get in Hin; [|apply infer_from_NoDup; constructor].
  unfold infer_diseases in Hin. rewrite get_infer_from in Hin. simpl in Hin.
  destruct (label_scores v R d) as [|s ss]; [discriminate|].
  injection Hin as <-. by apply fold_max_is_maximum.
Qed.

Lemma infer_diseases_numbers v R :
  number_values v -> Forall number (infer_diseases v R).*2.
Proof. intros Hv. apply infer_from_numbers; [assumption|constructor]. Qed.

(** Every rule has an entry under its label, with a score at least its
    own. *)
Lemma infer_rule_entry v R r :
  number_values v -> r ∈ R ->
  exists x, (disease r, x) ∈ infer_diseases v R /\
            (evaluate_rule r v <=? x) = true.
Proof.
  intros Hv Hr.
  assert (Hk : disease r ∈ (infer_diseases v R).*1)
    by (apply infer_diseases_keys_aux; by exists r).
  apply list_elem_of_fmap in Hk as ([d x] & Hd & Hin). simpl in Hd. subst d.
  exists x. split; [exact Hin|].
  apply (infer_entry_maximum v R _ x Hv Hin).
  apply label_scores_elem. by exists r.
Qed.

(** *** The conclusion of the script *)

Lemma run_nil v R : infer_diseases v R = [] -> run v R = No_known_disease.
Proof. unfold run. by intros ->. Qed.

Lemma run_cons v R x xs :
  infer_diseases v R = x :: xs ->
  run v R = conclusion (Some (py_max_by_score x xs).1)
              (py_max_by_score x xs).2.
Proof. unfold run. by intros ->. Qed.

Lemma conclusion_most_likely o s d s' :
  conclusion o s = Most_likely_disease d s' ->
  o = Some d /\ s' = s /\ d <> ""%string /\ (0 <? s) = true.
Proof.
  destruct o as [l|]; simpl; [|discriminate].
  destruct (String.eqb_spec l "") as [->|Hne]; simpl; [discriminate|].
  destruct (0 <? s) eqn:E; [|discriminate].
  intros [= -> ->]. done.
Qed.

(** What is selected from the inferred mapping: an entry of it, above the
    score of every rule of the rule base. *)
Lemma selected_entry v R x xs :
  infer_diseases v R = x :: xs ->
  py_max_by_score x xs ∈ infer_diseases v R /\
  (number_values v ->
   forall r, r ∈ R ->
     (evaluate_rule r v <=? (py_max_by_score x xs).2) = true).
Proof.
  intros E. split; [rewrite E; apply py_max_by_score_elem|].
  intros Hv r Hr.
  destruct (infer_rule_entry v R r Hv Hr) as (y & Hy & Hle).
  pose proof (infer_diseases_numbers v R Hv) as Hn. rewrite E in Hn, Hy.
  apply (leb_trans _ y); [exact Hle|].
  exact (py_max_by_score_upper xs x Hn (disease r, y) Hy).
Qed.

(** X1. When the script names a most likely disease, the label is not
    empty, the score is above zero, the score is the score of a rule of
    that disease, and no rule of the rule base scores higher. *)
Theorem run_most_likely_sound
    (v : gmap string float) (R : list rule) (d : string) (s : float) :
  number_values v ->
  run v R = Most_likely_disease d s ->
  d <> ""%string /\ (0 <? s) = true /\
  (exists r, r ∈ R /\ disease r = d /\ evaluate_rule r v = s) /\
  (forall r, r ∈ R -> (evaluate_rule r v <=? s) = true).
Proof.
  intros Hv Hrun. destruct (infer_diseases v R) as [|x xs] eqn:E.
  - rewrite run_nil in Hrun by assumption. discriminate.
  - rewrite (run_cons v R x xs E) in Hrun.
    apply conclusion_most_likely in Hrun as ([= <-] & -> & Hd & Hs).
    destruct (selected_entry v R x xs E) as [Hin Hup].
    split_and!; [exact Hd|exact Hs| |by apply Hup].
    apply label_scores_elem, infer_entry_score.
    by rewrite <- surjective_pairing.
Qed.

Lemma run_most_likely_sound_witness :
  "pharyngitis"%string <> ""%string /\ (0 <? 0.7) = true /\
  (exists r, r ∈ rules /\ disease r = "pharyngitis"%string /\
             evaluate_rule r symptoms = 0.7) /\
  (forall r, r ∈ rules -> (evaluate_rule r symptoms <=? 0.7) = true).
Proof.
  apply (run_most_likely_sound symptoms rules "pharyngitis" 0.7
           symptoms_number).
  vm_compute. reflexivity.
Defined.

(** X2. When no rule scores above zero the script concludes that no
    disease is known; this is so for an empty rule base. *)
Theorem run_no_support (v : gmap string float) (R : list rule) :
  (forall r, r ∈ R -> (0 <? evaluate_rule r v) = false) ->
  run v R = No_known_disease.
Proof.
  intros Hzero. destruct (infer_diseases v R) as [|x xs] eqn:E.
  - by apply run_nil.
  - rewrite (run_cons v R x xs E).
    destruct (selected_entry v R x xs E) as [Hin _].
    rewrite (surjective_pairing (py_max_by_score x xs)) in Hin.
    apply infer_entry_score, label_scores_elem in Hin as (r & Hr & _ & Hs).
    simpl. rewrite <- Hs, (Hzero r Hr). by rewrite andb_false_r.
Qed.

Lemma run_no_support_witness :
  run ∅ [Rule "flu" [("fever"%string, true)]; Rule "cold" []]
  = No_known_disease.
Proof.
  apply run_no_support. intros r Hr.
  rewrite !elem_of_cons in Hr. destruct Hr as [->|[->|Hr]].
  - vm_compute. reflexivity.
  - vm_compute. reflexivity.
  - by apply elem_of_nil in Hr.
Defined.

(** X3. For symptom values that are numbers: when some rule scores
    above zero and no rule has the empty string as its label, the script
    names a most likely disease.  (With a NaN among the values the
    selection can stop on a NaN score, which is not above zero.) *)
Theorem run_support (v : gmap string float) (R : list rule) :
  number_values v ->
  (forall r, r ∈ R -> disease r <> ""%string) ->
  (exists r, r ∈ R /\ (0 <? evaluate_rule r v) = true) ->
  exists d s, run v R = Most_likely_disease d s.
Proof.
  intros Hv Hlab (r & Hr & Hpos).
  destruct (infer_diseases v R) as [|x xs] eqn:E.
  - assert (Hk : disease r ∈ (infer_diseases v R).*1)
      by (apply infer_diseases_keys_aux; by exists r).
    rewrite E in Hk. by apply elem_of_nil in Hk.
  - rewrite (run_cons v R x xs E).
    destruct (selected_entry v R x xs E) as [Hin Hup].
    exists (py_max_by_score x xs).1, (py_max_by_score x xs).2.
    assert (Hd : (py_max_by_score x xs).1 <> ""%string).
    { apply (list_elem_of_fmap_2 fst) in Hin.
      apply infer_diseases_keys_aux in Hin as (r' & Hr' & <-).
      by apply Hlab. }
    assert (Hs : (0 <? (py_max_by_score x xs).2) = true).
    { apply (ltb_leb_trans _ (evaluate_rule r v));
        [exact zero_number|exact Hpos|by apply Hup]. }
    simpl. apply String.eqb_neq in Hd. by rewrite Hd, Hs.
Qed.

Lemma run_support_witness :
  exists d s, run symptoms rules = Most_likely_disease d s.
Proof.
  apply (run_support symptoms rules symptoms_number).
  - intros r Hr. unfold rules in Hr. rewrite !elem_of_cons in Hr.
    destruct Hr as [->|[->|[->|[->|[->|Hr]]]]]; try discriminate.
    by apply elem_of_nil in Hr.
  - exists (Rule "pharyngitis"
              [("sore_throat"%string, true); ("fever"%string, true)]).
    split; [|vm_compute; reflexivity].
    unfold rules. do 2 right. left.
Defined.

(** X4. [defuzzify_diseases] returns [None] for the mapping inferred from
    a rule base exactly when the rule base is empty. *)
Theorem defuzzify_infer_none (v : gmap string float) (R : list rule) :
  (defuzzify_diseases (infer_diseases v R)).1 = None <-> R = [].
Proof.
  split; [|by intros ->].
  destruct (infer_diseases v R) as [|x xs] eqn:E; [intros _|discriminate].
  destruct R as [|r R]; [reflexivity|].
  assert (Hk : disease r ∈ (infer_diseases v (r :: R)).*1)
    by (apply infer_diseases_keys_aux; exists r; split; [left|done]).
  rewrite E in Hk. by apply elem_of_nil in Hk.
Qed.

(** *** The order of the keys *)

(** X5. The keys of the inferred mapping are the labels of the rule base
    in the order of their first appearance, each once: the list of labels
    with every later repetition removed. *)
Theorem infer_diseases_keys (v : gmap string float) (R : list rule) :
  (infer_diseases v R).*1 = reverse (remove_dups (reverse (disease <$> R))).
Proof.
  unfold infer_diseases. induction R as [|r R IH] using rev_ind.
  - reflexivity.
  - rewrite infer_from_snoc, record_score_keys, IH.
    rewrite fmap_app, reverse_app. cbn [fmap list_fmap reverse rev_append app].
    change (rev_append (disease <$> R) []) with (reverse (disease <$> R)).
    cbn [remove_dups].
    destruct (decide (disease r ∈ reverse (remove_dups
                                             (reverse (disease <$> R)))))
      as [Hin|Hin];
      rewrite elem_of_reverse, elem_of_remove_dups in Hin;
      destruct (decide_rel elem_of (disease r) (reverse (disease <$> R)))
        as [Hin'|Hin']; try contradiction.
    + reflexivity.
    + by rewrite reverse_cons.
Qed.

(** *** The rule base as a set of rules *)

Lemma maximum_permutation (x x' : float) (l l' : list float) :
  is_maximum x l -> is_maximum x' l' -> l ≡ₚ l' -> (x =? x') = true.
Proof.
  intros [Hin Hup] [Hin' Hup'] Hp.
  rewrite eqb_leb. apply andb_true_intro. split.
  - apply Hup'. by rewrite <- Hp.
  - apply Hup. by rewrite Hp.
Qed.

Lemma label_scores_permutation v R R' d :
  R ≡ₚ R' -> label_scores v R d ≡ₚ label_scores v R' d.
Proof. intros Hp. unfold label_scores. by rewrite Hp. Qed.

(** X6. The scores do not depend on the order of the rules: two rule
    bases with the same rules in a different order give mappings with the
    same keys and, under each key, equal scores (Python's [==]). *)
Theorem infer_diseases_rule_order
    (v : gmap string float) (R R' : list rule) :
  number_values v -> R ≡ₚ R' ->
  (forall d, d ∈ (infer_diseases v R).*1 <-> d ∈ (infer_diseases v R').*1) /\
  (forall d x x',
     (d, x) ∈ infer_diseases v R -> (d, x') ∈ infer_diseases v R' ->
     (x =? x') = true).
Proof.
  intros Hv Hp. split.
  - intros d. rewrite !infer_diseases_keys_aux.
    split; intros (r & Hr & Hd); exists r; split; try done.
    + by rewrite <- Hp.
    + by rewrite Hp.
  - intros d x x' Hx Hx'.
    apply (maximum_permutation x x' (label_scores v R d)
             (label_scores v R' d)).
    + by apply infer_entry_maximum.
    + by apply infer_entry_maximum.
    + by apply label_scores_permutation.
Qed.

Lemma infer_diseases_rule_order_witness :
  (forall d,
     d ∈ (infer_diseases symptoms
            [Rule "flu" [("fever"%string, true)];
             Rule "cold" [("sneezing"%string, true)]]).*1 <->
     d ∈ (infer_diseases symptoms
            [Rule "cold" [("sneezing"%string, true)];
             Rule "flu" [("fever"%string, true)]]).*1) /\
  (forall d x x',
     (d, x) ∈ infer_diseases symptoms
                [Rule "flu" [("fever"%string, true)];
                 Rule "cold" [("sneezing"%string, true)]] ->
     (d, x') ∈ infer_diseases symptoms
                 [Rule "cold" [("sneezing"%string, true)];
                  Rule "flu" [("fever"%string, true)]] ->
     (x =? x') = true).
Proof.
  apply (infer_diseases_rule_order symptoms
           [Rule "flu" [("fever"%string, true)];
            Rule "cold" [("sneezing"%string, true)]]
           [Rule "cold" [("sneezing"%string, true)];
            Rule "flu" [("fever"%string, true)]] symptoms_number).
  apply perm_swap.
Defined.

(** X7. One more rule at the end of the rule base never lowers a score
    and changes no score but that of its own disease, which becomes at
    least the score of the rule. *)
Theorem infer_diseases_add_rule
    (v : gmap string float) (R : list rule) (r : rule) :
  number_values v ->
  (exists x', (disease r, x') ∈ infer_diseases v (R ++ [r]) /\
              (evaluate_rule r v <=? x') = true) /\
  (forall d x, (d, x) ∈ infer_diseases v R ->
     exists x', (d, x') ∈ infer_diseases v (R ++ [r]) /\
                (x <=? x') = true /\
                (d <> disease r -> x' = x)).
Proof.
  intros Hv. split.
  - apply infer_rule_entry; [assumption|].
    apply elem_of_app. right. left.
  - intros d x Hin.
    assert (Hx : number x).
    { apply (list_elem_of_fmap_2 snd) in Hin. revert Hin.
      apply Forall_forall. by apply infer_diseases_numbers. }
    apply elem_get in Hin; [|apply infer_from_NoDup; constructor].
    unfold infer_diseases in *. rewrite infer_from_snoc.
    destruct (decide (disease r = d)) as [<-|Hne].
    + exists (py_max2 x (evaluate_rule r v)). split_and!.
      * apply get_Some_elem. by rewrite get_record_score_eq, Hin.
      * by apply py_max2_upper; [|apply evaluate_rule_number].
      * congruence.
    + exists x. split_and!; [|by apply leb_refl|done].
      apply get_Some_elem. by rewrite get_record_score_ne.
Qed.

Lemma infer_diseases_add_rule_witness :
  (exists x',
     ("cold"%string, x') ∈
       infer_diseases symptoms
         ([Rule "flu" [("fever"%string, true)]] ++
          [Rule "cold" [("sneezing"%string, true)]]) /\
     (evaluate_rule (Rule "cold" [("sneezing"%string, true)]) symptoms
      <=? x') = true) /\
  (forall d x,
     (d, x) ∈ infer_diseases symptoms [Rule "flu" [("fever"%string, true)]] ->
     exists x',
       (d, x') ∈
         infer_diseases symptoms
           ([Rule "flu" [("fever"%string, true)]] ++
            [Rule "cold" [("sneezing"%string, true)]]) /\
       (x <=? x') = true /\
       (d <> "cold"%string -> x' = x)).
Proof.
  exact (infer_diseases_add_rule symptoms
           [Rule "flu" [("fever"%string, true)]]
           (Rule "cold" [("sneezing"%string, true)]) symptoms_number).
Defined.

(** *** The score of a rule *)

(** X8. More conditions never raise the score of a rule that has
    conditions: a rule whose conditions include those of another one,
    which has at least one, scores at most as much.  (A rule without
    conditions scores [0.0], below what one condition alone can give.) *)
Theorem evaluate_rule_more_conditions
    (d d' : string) (cs cs' : list condition) (v : gmap string float) :
  number_values v -> cs <> [] -> cs ⊆ cs' ->
  (evaluate_rule (Rule d' cs') v <=? evaluate_rule (Rule d cs) v) = true.
Proof.
  intros Hv Hne Hsub.
  assert (Hne' : cs' <> []).
  { destruct cs as [|c cs]; [contradiction|]. intros ->.
    specialize (Hsub c ltac:(left)). by apply elem_of_nil in Hsub. }
  destruct (evaluate_rule_minimum (Rule d cs) v Hv Hne) as [Hin _].
  destruct (evaluate_rule_minimum (Rule d' cs') v Hv Hne') as [_ Hlow'].
  cbn [conditions] in *. apply Hlow'.
  apply list_elem_of_fmap in Hin as (c & -> & Hc).
  apply list_elem_of_fmap_2, Hsub, Hc.
Qed.

Lemma evaluate_rule_more_conditions_witness :
  (evaluate_rule
     (Rule "cold" [("sore_throat"%string, true); ("fever"%string, false);
                   ("sneezing"%string, true)]) symptoms
   <=? evaluate_rule (Rule "cold" [("sore_throat"%string, true)]) symptoms)
  = true.
Proof.
  apply (evaluate_rule_more_conditions "cold" "cold"
           [("sore_throat"%string, true)]
           [("sore_throat"%string, true); ("fever"%string, false);
            ("sneezing"%string, true)] symptoms symptoms_number).
  - discriminate.
  - intros c Hc. apply list_elem_of_singleton in Hc as ->. left.
Defined.

(** X9. A rule that asks for the presence of a symptom that the mapping
    does not hold scores at most zero, and exactly zero (Python's [==])
    when the values of the mapping lie in [[0, 1]]. *)
Theorem evaluate_rule_unknown_symptom
    (r : rule) (v : gmap string float) (s : string) :
  (s, true) ∈ conditions r -> v !! s = None ->
  (number_values v -> (evaluate_rule r v <=? 0) = true) /\
  (unit_values v -> (evaluate_rule r v =? 0) = true).
Proof.
  intros Hc Hs.
  assert (Hne : conditions r <> [])
    by (intros E; rewrite E in Hc; by apply elem_of_nil in Hc).
  assert (Hval : condition_value v (s, true) = 0)
    by (unfold condition_value; simpl; by rewrite Hs).
  assert (Hle : number_values v -> (evaluate_rule r v <=? 0) = true).
  { intros Hv. destruct (evaluate_rule_minimum r v Hv Hne) as [_ Hlow].
    rewrite <- Hval. by apply Hlow, list_elem_of_fmap_2. }
  split; [exact Hle|]. intros Hu.
  rewrite eqb_leb. apply andb_true_intro. split.
  - apply Hle. intros k x Hk. eapply unit_interval_number, Hu, Hk.
  - by apply evaluate_rule_unit.
Qed.

Lemma evaluate_rule_unknown_symptom_witness :
  (evaluate_rule
     (Rule "flu" [("fever"%string, true); ("headache"%string, true)])
     symptoms <=? 0) = true /\
  (evaluate_rule
     (Rule "flu" [("fever"%string, true); ("headache"%string, true)])
     symptoms =? 0) = true.
Proof.
  destruct (evaluate_rule_unknown_symptom
              (Rule "flu" [("fever"%string, true); ("headache"%string, true)])
              symptoms "headache") as [H1 H2].
  - right. left.
  - vm_compute. reflexivity.
  - split; [exact (H1 symptoms_number)|exact (H2 symptoms_unit)].
Defined.

(** X10. A rule that only asks for the presence of symptoms does not
    score less when the symptom values, read with [0.0] for a missing
    symptom, do not decrease. *)
Theorem evaluate_rule_monotone (r : rule) (v v' : gmap string float) :
  (forall c, c ∈ conditions r -> c.2 = true) ->
  (forall s, (default 0 (v !! s) <=? default 0 (v' !! s)) = true) ->
  (evaluate_rule r v <=? evaluate_rule r v') = true.
Proof.
  intros Hpres Hle.
  assert (Hv : number_values v).
  { intros s x Hs. specialize (Hle s). rewrite Hs in Hle.
    by apply leb_number in Hle as [? _]. }
  assert (Hv' : number_values v').
  { intros s x Hs. specialize (Hle s). rewrite Hs in Hle.
    by apply leb_number in Hle as [_ ?]. }
  destruct (conditions r) as [|c0 cs] eqn:E.
  - rewrite !evaluate_rule_empty by assumption. reflexivity.
  - assert (Hne : conditions r <> []) by (rewrite E; discriminate).
    destruct (evaluate_rule_minimum r v Hv Hne) as [_ Hlow].
    destruct (evaluate_rule_minimum r v' Hv' Hne) as [Hin' _].
    apply list_elem_of_fmap in Hin' as (c & -> & Hc).
    apply (leb_trans _ (condition_value v c)).
    + by apply Hlow, list_elem_of_fmap_2.
    + unfold condition_value. rewrite E in Hc.
      rewrite (Hpres c Hc). apply Hle.
Qed.

Lemma evaluate_rule_monotone_witness :
  (evaluate_rule
     (Rule "flu" [("fever"%string, true); ("dry_cough"%string, true)])
     {[ "fever"%string := 0.5 ]}
   <=? evaluate_rule
         (Rule "flu" [("fever"%string, true); ("dry_cough"%string, true)])
         {[ "fever"%string := 0.8; "dry_cough"%string := 0.4 ]}) = true.
Proof.
  apply evaluate_rule_monotone.
  - intros c Hc. cbn [conditions] in Hc. rewrite !elem_of_cons in Hc.
    destruct Hc as [->|[->|Hc]]; [reflexivity..|].
    by apply elem_of_nil in Hc.
  - intros s.
    destruct (decide (s = "fever"%string)) as [->|Hf];
      [vm_compute; reflexivity|].
    destruct (decide (s = "dry_cough"%string)) as [->|Hd];
      [vm_compute; reflexivity|].
    rewrite lookup_singleton_ne by done.
    rewrite lookup_insert_ne by done.
    rewrite lookup_singleton_ne by done.
    reflexivity.
Defined.

(** X11. The score of a rule depends only on the symptoms that its
    conditions name: two mappings that agree on them give the same
    score. *)
Theorem evaluate_rule_frame (r : rule) (v v' : gmap string float) :
  (forall c, c ∈ conditions r -> v !! c.1 = v' !! c.1) ->
  evaluate_rule r v = evaluate_rule r v'.
Proof.
  intros Hagree. unfold evaluate_rule.
  assert (E : condition_value v <$> conditions r
              = condition_value v' <$> conditions r).
  { apply Forall_fmap_ext, Forall_forall. intros c Hc.
    unfold condition_value. by rewrite (Hagree c Hc). }
  by rewrite E.
Qed.

Lemma evaluate_rule_frame_witness :
  evaluate_rule (Rule "flu" [("fever"%string, true)])
    {[ "fever"%string := 0.8 ]}
  = evaluate_rule (Rule "flu" [("fever"%string, true)])
      {[ "fever"%string := 0.8; "sneezing"%string := 0.1 ]}.
Proof.
  apply evaluate_rule_frame. intros c Hc. cbn [conditions] in Hc.
  apply list_elem_of_singleton in Hc as ->. vm_compute. reflexivity.
Defined.

(** *** A symptom asked both present and absent *)

Module Binary64Half.

Local Open Scope Z_scope.

(** Rounding a positive number below [2^-k]; the proof follows the two
    shifts of [binary_round_aux] as for numbers below one. *)
Lemma binary_round_aux_below k mx ex :
  0 <= k <= 1000 ->
  0 < mx -> mx < 2 ^ (- ex - k) -> ex <= -53 - k ->
  SFbelow k (binary_round_aux prec emax false mx ex loc_Exact).
Proof.
  intros Hk Hpos Hlt Hex. unfold binary_round_aux.
  assert (Hd : Zdigits2 mx + ex <= - k)
    by (pose proof (Zdigits2_le_of_lt mx (- ex - k) Hpos Hlt); lia).
  assert (H1 : exists mrs' e',
             shr_fexp prec emax mx ex loc_Exact = (mrs', e') /\
             e' <= -53 - k /\
             0 <= round_nearest_even (shr_m mrs') (loc_of_shr_record mrs')
               <= 2 ^ (- e' - k)).
  { destruct (Z.le_gt_cases (fexp prec emax (Zdigits2 mx + ex) - ex) 0)
      as [Hn|Hn].
    - rewrite shr_fexp_noshift by assumption. do 2 eexists.
      split; [reflexivity|]. simpl. lia.
    - pose proof (shr_fexp_spec mx ex loc_Exact ltac:(lia)) as [Hm He].
      destruct (shr_fexp prec emax mx ex loc_Exact) as [mrs' e'].
      simpl in Hm, He.
      do 2 eexists. split; [reflexivity|].
      rewrite fexp_eq in *. rewrite Z.max_r in Hm, He by lia.
      remember (Z.max (Zdigits2 mx + ex - 53) (-1074) - ex) as n eqn:Dn.
      assert (He' : e' <= -53 - k) by lia.
      split; [exact He'|].
      pose proof (round_nearest_even_bounds (shr_m mrs')
                    (loc_of_shr_record mrs')) as Hr.
      rewrite Hm in *.
      assert (0 <= mx / 2 ^ n) by (apply Z.div_pos; lia).
      assert (mx / 2 ^ n < 2 ^ (- e' - k)).
      { apply Z.div_lt_upper_bound; [lia|].
        rewrite <- Z.pow_add_r by lia.
        replace (n + (- e' - k)) with (- ex - k) by lia. exact Hlt. }
      lia. }
  destruct H1 as (mrs' & e' & -> & He' & Hm1).
  remember (round_nearest_even (shr_m mrs') (loc_of_shr_record mrs'))
    as m1 eqn:Dm1.
  pose proof (shr_fexp_spec m1 e' loc_Exact ltac:(lia)) as [Hm He].
  destruct (shr_fexp prec emax m1 e' loc_Exact) as [mrs'' e''].
  simpl in Hm, He. rewrite fexp_eq in *.
  remember (Z.max 0 (Z.max (Zdigits2 m1 + e' - 53) (-1074) - e'))
    as n2 eqn:Dn2.
  destruct (shr_m mrs'') as [|m''|m''] eqn:Em; simpl; [exact I| |].
  - assert (Hm1pos : 0 < m1).
    { destruct (Z.eq_dec m1 0) as [E0|]; [|lia].
      rewrite E0, Z.div_0_l in Hm by lia. lia. }
    pose proof (Zdigits2_le_of_le m1 (- e' - k) Hm1pos ltac:(lia)) as Hd1.
    assert (He'' : e'' <= -52 - k) by lia.
    replace (e'' <=? emax - prec) with true
      by (symmetry; apply Z.leb_le; change (emax - prec) with 971; lia).
    simpl. destruct (Z.le_gt_cases e'' (-53 - k)) as [|Hgt];
      [left; assumption|right].
    split; [lia|].
    assert (Hdig : Zdigits2 m1 = 1 - e' - k) by lia.
    destruct (Zdigits2_bounds m1 Hm1pos) as [Hlo _].
    rewrite Hdig in Hlo.
    replace (1 - e' - k - 1) with (- e' - k) in Hlo by lia.
    assert (Em1 : m1 = 2 ^ (- e' - k)) by lia.
    assert (En2 : n2 = -52 - k - e') by lia.
    rewrite Hm, Em1, En2, <- Z.pow_sub_r by lia.
    replace (- e' - k - (-52 - k - e')) with 52 by lia. reflexivity.
  - assert (0 <= m1 / 2 ^ n2) by (apply Z.div_pos; lia). lia.
Qed.

Lemma binary_round_below k m e :
  0 <= k <= 1000 -> Zpos m < 2 ^ (- e - k) ->
  SFbelow k (binary_round prec emax false m e).
Proof.
  intros Hk Hlt. unfold binary_round, shl_align.
  assert (Hd : Zpos (digits2_pos m) + e <= - k)
    by (pose proof (Zdigits2_le_of_lt (Zpos m) (- e - k) ltac:(lia) Hlt);
        simpl in *; lia).
  pose proof (fexp_eq (Zpos (digits2_pos m) + e)) as Hf.
  destruct (fexp prec emax (Zpos (digits2_pos m) + e) - e) as [|d|d] eqn:E.
  - apply binary_round_aux_below; [assumption|lia|assumption|lia].
  - apply binary_round_aux_below; [assumption|lia|assumption|lia].
  - apply binary_round_aux_below; [assumption|lia| |lia].
    rewrite Zpos_iter_xO.
    replace (- fexp prec emax (Zpos (digits2_pos m) + e) - k)
      with (- e - k + Zpos d) by lia.
    assert (0 <= - e - k).
    { destruct (Z.le_gt_cases 0 (- e - k)); [assumption|].
      rewrite Z.pow_neg_r in Hlt; lia. }
    rewrite Z.pow_add_r by lia.
    apply Z.mul_lt_mono_pos_r; [|exact Hlt]. apply Z.pow_pos_nonneg; lia.
Qed.

Section Half.
(** The common mantissa of [1.0 = one_m * 2^-52] and
    [0.5 = one_m * 2^-53], kept abstract. *)
Variable one_m : positive.
Hypothesis one_m_eq : Zpos one_m = 2 ^ 52.

Let SF_one : spec_float := S754_finite false one_m (-52).
Let SF_half : spec_float := S754_finite false one_m (-53).

Lemma SFbelow_half r : SFbelow 1 r -> SFleb r SF_half = true.
Proof using one_m_eq.
  destruct r as [[]|[]| |[] m e]; simpl; try easy.
  intros H. apply SFleb_finite. lia.
Qed.

(** Above one half and at most one: one minus the number is at most one
    half. *)
Lemma SF_one_minus_half p :
  valid_binary p = true ->
  SFleb p SF_one = true -> SFleb p SF_half = false ->
  SFleb (SFsub prec emax SF_one p) SF_half = true.
Proof using one_m_eq.
  intros Hv H1 Hh. destruct p as [s|s| |s m e]; try discriminate.
  - destruct s; discriminate.
  - destruct s; [discriminate|].
    apply bounded_digits in Hv as (Hd & He & Hn).
    pose proof (digits2_pos_bounds m) as [Hlo Hhi].
    assert (Hm53 : Zpos m < 2 ^ 53).
    { eapply Z.lt_le_trans; [exact Hhi|]. apply Z.pow_le_mono_r; lia. }
    apply SFleb_finite in H1.
    assert (Hnh : ~ (e < -53 \/ (e = -53 /\ Zpos m <= Zpos one_m))).
    { intros H. apply SFleb_finite in H. unfold SF_half in Hh. congruence. }
    assert (Hcase : (e = -53 /\ 2 ^ 52 < Zpos m) \/ (e = -52 /\ m = one_m)).
    { destruct H1 as [Hlt|[-> Hle]].
      - left. lia.
      - right. split; [reflexivity|].
        rewrite Hn in Hlo by lia. replace (53 - 1) with 52 in Hlo by lia.
        lia. }
    unfold SFsub, SF_one, cond_Zopp, shl_align.
    destruct Hcase as [[-> Hm]|[-> ->]].
    + apply SFbelow_half.
      change (Z.min (-52) (-53)) with (-53).
      change (-53 - -52) with (Zneg 1). change (-53 - -53) with 0.
      cbn [fst Pos.iter]. unfold binary_normalize.
      destruct (Zpos one_m~0 - Zpos m) as [|M|M] eqn:EM; try lia.
      apply binary_round_below; [lia|].
      change (- -53 - 1) with 52. lia.
    + rewrite Z.min_id, Z.sub_diag. reflexivity.
Qed.
End Half.

Lemma Prim2SF_half :
  Prim2SF 0.5%float = S754_finite false 4503599627370496 (-53).
Proof. vm_compute. reflexivity. Qed.

(** A number of [[0, 1]] or its complement to one is at most one half. *)
Lemma one_minus_half (x : float) :
  unit_interval x ->
  (x <=? 0.5)%float = false -> (1 - x <=? 0.5)%float = true.
Proof.
  unfold unit_interval.
  rewrite !FloatAxioms.leb_spec, FloatAxioms.sub_spec,
    Prim2SF_one, Prim2SF_half.
  intros [_ H1] Hh.
  apply (SF_one_minus_half _ one_mantissa);
    auto using Prim2SF_valid.
Qed.

End Binary64Half.

Import Binary64Half.

(** X12. A rule that asks for the same symptom both present and absent
    never scores above one half when the symptom values lie in
    [[0, 1]], whatever its other conditions: one of [val] and
    [1.0 - val] is at most [0.5]. *)
Theorem evaluate_rule_contradiction
    (r : rule) (v : gmap string float) (s : string) :
  unit_values v ->
  (s, true) ∈ conditions r -> (s, false) ∈ conditions r ->
  (evaluate_rule r v <=? 0.5) = true.
Proof.
  intros Hu Hp Ha.
  assert (Hv : number_values v)
    by (intros k x Hk; eapply unit_interval_number, Hu, Hk).
  assert (Hne : conditions r <> [])
    by (intros E; rewrite E in Hp; by apply elem_of_nil in Hp).
  destruct (evaluate_rule_minimum r v Hv Hne) as [_ Hlow].
  pose proof (condition_value_unit v (s, true) Hu) as Hx.
  pose proof (Hlow _ (list_elem_of_fmap_2 (condition_value v) _ _ Hp)) as Hlp.
  pose proof (Hlow _ (list_elem_of_fmap_2 (condition_value v) _ _ Ha)) as Hla.
  unfold condition_value in Hx, Hlp, Hla. simpl in Hx, Hlp, Hla.
  destruct (default 0 (v !! s) <=? 0.5) eqn:E.
  - by apply (leb_trans _ (default 0 (v !! s))).
  - apply (leb_trans _ (1 - default 0 (v !! s))); [exact Hla|].
    by apply one_minus_half.
Qed.

Lemma evaluate_rule_contradiction_witness :
  (evaluate_rule
     (Rule "cold" [("fever"%string, true); ("fever"%string, false)])
     symptoms <=? 0.5) = true.
Proof.
  apply (evaluate_rule_contradiction
           (Rule "cold" [("fever"%string, true); ("fever"%string, false)])
           symptoms "fever" symptoms_unit).
  - left.
  - right. left.
Defined.
